(** * elgato-gchd: the device lifecycle of [elgato-gchd.c]

    A shallow embedding of the main translation unit of the Elgato Game
    Capture HD userspace driver: the globals, the signal handler, device
    location, interface acquisition, clean-up and [main].

    The program talks to libusb, the file system and to functions of the
    other translation units.  Every such call is recorded as an [event] in a
    chronological trace, and its result is read from an [Env] record that
    fixes, once and for all, how the outside world answers.

    Diagnostic lines are recorded by their text, without the newlines of
    the format strings.  Signals are handled between the statements of
    [main], with the dispositions [main] sets at its start; since nothing
    before the configuration block reads the run flag, this loses no
    behaviour but the exact place of the handler's line on stderr.  A run
    of [main] that never returns is the result [None].

    [main] takes the results of [getopt_long] and an [open] of the FIFO
    that returns; [main_argv] starts from the argument vector and the array
    of long options, [main_blocking] adds the [open] that waits for ever. *)

From Stdlib Require Import ZArith List Ascii String Bool Lia.
Import ListNotations.
Open Scope string_scope.
Open Scope list_scope.
Open Scope Z_scope.

(** ** Constants *)

Definition ELGATO_VENDOR : Z := 0x0fd9.
Definition GAME_CAPTURE_HD_PID_0 : Z := 0x0044.
Definition GAME_CAPTURE_HD_PID_1 : Z := 0x004e.
Definition GAME_CAPTURE_HD_PID_2 : Z := 0x0051.
Definition GAME_CAPTURE_HD_PID_3 : Z := 0x005d.

Definition INTERFACE_NUM : Z := 0x00.
Definition CONFIGURATION : Z := 0x01.

Definition fifo_path : string := "/tmp/elgato_gchd.ts".

(** Values of <signal.h>, <stdlib.h> and getopt on Linux. *)
Definition SIGINT : Z := 2.
Definition SIGTERM : Z := 15.
Definition SIGPIPE : Z := 13.
Definition EXIT_FAILURE : Z := 1.

(** [enum video_resoltion]: a C enumeration, stored in an [int]. *)
Definition v720p : Z := 0.
Definition v1080p : Z := 1.
Definition v576i : Z := 2.
Definition vc576p : Z := 3.
Definition vc720p : Z := 4.
Definition vc1080i : Z := 5.
Definition vc1080p : Z := 6.

(** ** The outside world *)

(** The two firmware files probed with [access(_, F_OK)]; their paths are
    macros of [common.h]. *)
Inductive firmware := FW_MB86H57_H58_IDLE | FW_MB86H57_H58_ENC.

(** The seven initialisation scripts, one function each in [init_*.h]. *)
Inductive script :=
| configure_dev_720p
| configure_dev_1080p
| configure_dev_576i
| configure_dev_component_576p
| configure_dev_component_720p
| configure_dev_component_1080i
| configure_dev_component_1080p.

(** Every call that leaves this translation unit, and every diagnostic
    line. *)
Inductive event :=
| EMsg (line : string)
| EAccess (f : firmware)
| ELibusbInit
| EOpenDevice (vid pid : Z)
| EKernelDriverActive (iface : Z)
| EDetachKernelDriver (iface : Z)
| ESetConfiguration (cfg : Z)
| EClaimInterface (iface : Z)
| EMkfifo (path : string)
| EOpenFifo (path : string)
| EConfigure (s : script)
| EReceiveData
| ERemoveElgato
| EReleaseInterface (iface : Z)
| ELibusbClose
| ELibusbExit
| ECloseFd (fd : Z)
| EUnlink (path : string).

(** Places of [main] at which pending signals are delivered before the next
    read of [is_running]. *)
Inductive point :=
| BeforeFirmwareCheck
| BeforeLocate
| BeforeAcquire
| BeforeSink
| WaitingForReader.

(** How the outside world answers.  [sig_loop] lists, for the capture loop,
    the signals that arrive before each successive test of [is_running]
    (its head before the first test, that is during configuration); when the
    list is exhausted no signal ever arrives again. *)
Record Env := {
  fw_present : firmware -> bool;        (* access(path, F_OK) == 0 *)
  libusb_init_result : Z;               (* libusb_init(NULL) *)
  usb_devices : list (Z * Z);           (* (vendor, product) of what is attached *)
  kernel_driver_active : Z;             (* libusb_kernel_driver_active *)
  set_configuration_result : Z;         (* libusb_set_configuration *)
  claim_interface_result : Z;           (* libusb_claim_interface *)
  open_result : Z;                      (* open(fifo_path, O_WRONLY), once it returns *)
  configure_succeeds : script -> bool;  (* outcome of an initialisation script *)
  sig_at : point -> list Z;             (* signals arriving during set-up *)
  sig_loop : list (list Z)              (* signals arriving during the loop *)
}.

(** ** Globals *)

(** [devh] is a pointer: [None] is NULL, [Some (vid, pid)] the handle of the
    opened device. *)
Record globals := {
  is_running : Z;
  libusb_ret : Z;
  fd_fifo : Z;
  init_has_been_run : Z;
  devh : option (Z * Z);
  trace : list event
}.

Definition initial : globals :=
  {| is_running := 1; libusb_ret := 1; fd_fifo := 0; init_has_been_run := 0;
     devh := None; trace := [] |}.

Definition set_is_running (v : Z) (g : globals) : globals :=
  {| is_running := v; libusb_ret := libusb_ret g; fd_fifo := fd_fifo g;
     init_has_been_run := init_has_been_run g; devh := devh g;
     trace := trace g |}.

Definition set_libusb_ret (v : Z) (g : globals) : globals :=
  {| is_running := is_running g; libusb_ret := v; fd_fifo := fd_fifo g;
     init_has_been_run := init_has_been_run g; devh := devh g;
     trace := trace g |}.

Definition set_fd_fifo (v : Z) (g : globals) : globals :=
  {| is_running := is_running g; libusb_ret := libusb_ret g; fd_fifo := v;
     init_has_been_run := init_has_been_run g; devh := devh g;
     trace := trace g |}.

Definition set_init_has_been_run (v : Z) (g : globals) : globals :=
  {| is_running := is_running g; libusb_ret := libusb_ret g;
     fd_fifo := fd_fifo g; init_has_been_run := v; devh := devh g;
     trace := trace g |}.

Definition set_devh (v : option (Z * Z)) (g : globals) : globals :=
  {| is_running := is_running g; libusb_ret := libusb_ret g;
     fd_fifo := fd_fifo g; init_has_been_run := init_has_been_run g;
     devh := v; trace := trace g |}.

Definition emit (e : event) (g : globals) : globals :=
  {| is_running := is_running g; libusb_ret := libusb_ret g;
     fd_fifo := fd_fifo g; init_has_been_run := init_has_been_run g;
     devh := devh g; trace := trace g ++ [e] |}.

(** ** A state monad over the globals *)

Definition prog (A : Type) : Type := globals -> A * globals.

Definition ret {A} (a : A) : prog A := fun g => (a, g).

Definition bind {A B} (c : prog A) (k : A -> prog B) : prog B :=
  fun g => let (a, g') := c g in k a g'.

Definition act (f : globals -> globals) : prog unit := fun g => (tt, f g).

Definition read {A} (f : globals -> A) : prog A := fun g => (f g, g).

Definition exec {A} (c : prog A) (g : globals) : globals := snd (c g).

Declare Scope prog_scope.
Delimit Scope prog_scope with prog.
Notation "x <- c ;; k" := (bind c (fun x => k))
  (at level 61, c at next level, right associativity) : prog_scope.
Notation "c ;; k" := (bind c (fun _ => k))
  (at level 61, right associativity) : prog_scope.

Definition fprintf (line : string) : prog unit := act (emit (EMsg line)).
Definition call (e : event) : prog unit := act (emit e).

(** ** The signal handler *)

Definition stop_notice : string :=
  "Stop signal received. Your device is going to be reset. Please wait and do not interrupt or unplug your device.".

Definition sig_handler (sig : Z) : prog unit :=
  (fprintf stop_notice ;;
   if sig =? SIGINT then act (set_is_running 0)
   else if sig =? SIGTERM then act (set_is_running 0)
   else ret tt)%prog.

(** What the arrival of a signal does, with the dispositions [main] sets
    at its start: [sig_handler] for SIGINT and SIGTERM, SIG_IGN for SIGPIPE.
    Every other signal keeps its default disposition, which for most of
    them ends the process at once; a run in which one of those arrives is
    not a run of this model, and a schedule is read as the signals the
    process lives through. *)
Definition on_signal (sig : Z) : prog unit :=
  if sig =? SIGINT then sig_handler sig
  else if sig =? SIGTERM then sig_handler sig
  else if sig =? SIGPIPE then ret tt
  else ret tt.

(** Asynchronous delivery of a batch of signals, in order. *)
Fixpoint deliver (sigs : list Z) : prog unit :=
  match sigs with
  | [] => ret tt
  | s :: rest => (on_signal s ;; deliver rest)%prog
  end.

(** ** Command-line options *)

(** The value [getopt_long] returns for an option character. *)
Definition chr (c : ascii) : Z := Z.of_N (N_of_ascii c).

(** The [while ((opt = getopt_long(...)) != -1)] loop of [main].  Its input
    is what the successive calls of [getopt_long] return before -1: the
    option character [opt] and the argument [optarg] it points to.  The
    result is the selected resolution, or the diagnostic of the
    [return EXIT_FAILURE] that was taken.  What [getopt_long] returns for a
    given argument vector, and when its scan of [longOptions] leaves the
    array, is [parse_argv] below. *)
Fixpoint parse_options (opts : list (Z * string)) (resolution : Z) : Z + string :=
  match opts with
  | [] => inl resolution
  | (opt, optarg) :: rest =>
      if opt =? chr "r" then
        if (optarg =? "720p")%string then parse_options rest v720p
        else if (optarg =? "1080p")%string then parse_options rest v1080p
        else if (optarg =? "576i")%string then parse_options rest v576i
        else if (optarg =? "c576p")%string then parse_options rest vc576p
        else if (optarg =? "c720p")%string then parse_options rest vc720p
        else if (optarg =? "c1080i")%string then parse_options rest vc1080i
        else if (optarg =? "c1080p")%string then parse_options rest vc1080p
        else inr "Unsupported resolution."
      else if opt =? chr ":" then inr "Missing argument."
      else if opt =? chr "?" then inr "Unrecognized option."
      else inr "Unexpected error."
  end.

Section Lifecycle.

Variable env : Env.

(** A device with this identity is attached and can be opened. *)
Definition present (vid pid : Z) : bool :=
  existsb (fun d => (fst d =? vid) && (snd d =? pid)) (usb_devices env).

(** [libusb_open_device_with_vid_pid]: the handle of a device with this
    identity, NULL when none is attached. *)
Definition libusb_open_device_with_vid_pid (vid pid : Z) : prog (option (Z * Z)) :=
  (call (EOpenDevice vid pid) ;;
   ret (if present vid pid then Some (vid, pid) else None))%prog.

Definition is_null (h : option (Z * Z)) : bool :=
  match h with Some _ => false | None => true end.

Definition try_open (pid : Z) : prog bool :=
  (h <- libusb_open_device_with_vid_pid ELGATO_VENDOR pid ;;
   act (set_devh h) ;;
   ret (negb (is_null h)))%prog.

Definition init_dev_handler : prog Z :=
  (act (set_devh None) ;;
   call ELibusbInit ;;
   act (set_libusb_ret (libusb_init_result env)) ;;
   r <- read libusb_ret ;;
   if negb (r =? 0) then
     fprintf "Error initializing libusb." ;; ret 1
   else
     found <- try_open GAME_CAPTURE_HD_PID_0 ;;
     if found then ret 0 else
     found <- try_open GAME_CAPTURE_HD_PID_1 ;;
     if found then ret 0 else
     found <- try_open GAME_CAPTURE_HD_PID_2 ;;
     if found then ret 0 else
     found <- try_open GAME_CAPTURE_HD_PID_3 ;;
     if found then
       fprintf "This revision of the Elgato Game Capture HD is currently not supported." ;;
       ret 1
     else ret 1)%prog.

Definition get_interface : prog Z :=
  (call (EKernelDriverActive INTERFACE_NUM) ;;
   (if negb (kernel_driver_active env =? 0)
    then call (EDetachKernelDriver INTERFACE_NUM) else ret tt) ;;
   call (ESetConfiguration CONFIGURATION) ;;
   if negb (set_configuration_result env =? 0) then
     fprintf "Could not activate configuration." ;; ret 1
   else
     call (EClaimInterface INTERFACE_NUM) ;;
     if negb (claim_interface_result env =? 0) then
       fprintf "Failed to claim interface." ;; ret 1
     else ret 0)%prog.

(** Modelled from the spec: [remove_elgato] of [remove.h] is the
    device-reset command; it is a call to the device that writes none of
    the globals of this file. *)
Definition remove_elgato : prog unit := call ERemoveElgato.

Definition clean_up : prog unit :=
  (h <- read devh ;;
   (if negb (is_null h) then
      i <- read init_has_been_run ;;
      (if negb (i =? 0) then
         remove_elgato ;; fprintf "Device has been reset."
       else ret tt) ;;
      call (EReleaseInterface INTERFACE_NUM) ;;
      call ELibusbClose
    else ret tt) ;;
   r <- read libusb_ret ;;
   (if r =? 0 then call ELibusbExit else ret tt) ;;
   fd <- read fd_fifo ;;
   call (ECloseFd fd) ;;
   call (EUnlink fifo_path) ;;
   fprintf "Terminating.")%prog.

(** Modelled from the spec: the bodies of the [configure_dev_*] functions
    live in the [init_*] translation units.  "On success sets
    InitializedFlag": the call replays its script, and when the script
    succeeds it sets [init_has_been_run]. *)
Definition configure_dev (s : script) : prog unit :=
  (call (EConfigure s) ;;
   if configure_succeeds env s then act (set_init_has_been_run 1) else ret tt)%prog.

(** Modelled from the spec: [receive_data] pulls one payload unit from the
    device and forwards it to the sink; it writes none of the globals of
    this file. *)
Definition receive_data : prog unit := call EReceiveData.

(** The [switch (resolution)] of [main]. *)
Definition configure_switch (resolution : Z) : prog unit :=
  if resolution =? v720p then configure_dev configure_dev_720p
  else if resolution =? v1080p then configure_dev configure_dev_1080p
  else if resolution =? v576i then configure_dev configure_dev_576i
  else if resolution =? vc576p then configure_dev configure_dev_component_576p
  else if resolution =? vc720p then configure_dev configure_dev_component_720p
  else if resolution =? vc1080i then configure_dev configure_dev_component_1080i
  else if resolution =? vc1080p then configure_dev configure_dev_component_1080p
  else clean_up.

(** [main] from the firmware check to the opening of the FIFO, with the
    signals that arrive up to the read of [is_running] that follows.  The
    result tells whether control continues ([true]) or has jumped to the
    label [end] ([false]).  The [open] of the FIFO is taken to return, with
    [open_result]; the run in which it waits for ever is in
    [main_blocking]. *)
Definition acquire : prog bool :=
  (deliver (sig_at env BeforeFirmwareCheck) ;;
   call (EAccess FW_MB86H57_H58_IDLE) ;;
   idle_missing <- ret (negb (fw_present env FW_MB86H57_H58_IDLE)) ;;
   enc_missing <-
     (if idle_missing then ret true
      else call (EAccess FW_MB86H57_H58_ENC) ;;
           ret (negb (fw_present env FW_MB86H57_H58_ENC))) ;;
   if enc_missing then
     fprintf "Firmware files missing." ;; ret false
   else
     deliver (sig_at env BeforeLocate) ;;
     r <- init_dev_handler ;;
     if negb (r =? 0) then
       fprintf "Unable to find device." ;; ret false
     else
       deliver (sig_at env BeforeAcquire) ;;
       r <- get_interface ;;
       if negb (r =? 0) then
         fprintf "Could not claim interface." ;; ret false
       else
         deliver (sig_at env BeforeSink) ;;
         call (EMkfifo fifo_path) ;;
         fprintf "/tmp/elgato_gchd.ts has been created. Waiting for user to open it." ;;
         call (EOpenFifo fifo_path) ;;
         act (set_fd_fifo (open_result env)) ;;
         deliver (sig_at env WaitingForReader) ;;
         ret true)%prog.

(** The block [if (is_running) { ... }] that sets the device
    configuration. *)
Definition configure_stage (resolution : Z) : prog unit :=
  (run <- read is_running ;;
   if negb (run =? 0) then
     fprintf "Running. Initializing device." ;;
     configure_switch resolution ;;
     fprintf "Streaming data from device now."
   else ret tt)%prog.

(** Everything of [main] between option parsing and the capture loop. *)
Definition setup (resolution : Z) : prog bool :=
  (ok <- acquire ;;
   if ok then configure_stage resolution ;; ret true else ret false)%prog.

(** [while (is_running) receive_data();] against the signal schedule.
    [None]: the flag is still set when no further signal will ever arrive,
    so the loop never ends. *)
Fixpoint capture_loop (sched : list (list Z)) (g : globals) : option globals :=
  match sched with
  | [] => if is_running g =? 0 then Some g else None
  | sigs :: rest =>
      let g := exec (deliver sigs) g in
      if is_running g =? 0 then Some g
      else capture_loop rest (exec receive_data g)
  end.

(** The lifecycle part of [main]: everything after option parsing.  The
    result is the exit status and the final globals. *)
Definition lifecycle (resolution : Z) : option (Z * globals) :=
  let (streaming, g) := setup resolution initial in
  if streaming then
    match capture_loop (sig_loop env) g with
    | Some g => Some (0, exec clean_up g)
    | None => None
    end
  else Some (0, exec clean_up g).

(** [main]: [int resolution = 0], option parsing, then the lifecycle. *)
Definition main (opts : list (Z * string)) : option (Z * globals) :=
  match parse_options opts 0 with
  | inr line => Some (EXIT_FAILURE, exec (fprintf line) initial)
  | inl resolution => lifecycle resolution
  end.

End Lifecycle.

(** ** Reading a trace *)

Definition is_clean_up_end (e : event) : bool :=
  match e with EMsg line => (line =? "Terminating.")%string | _ => false end.

Definition is_configure (e : event) : bool :=
  match e with EConfigure _ => true | _ => false end.

Definition is_receive (e : event) : bool :=
  match e with EReceiveData => true | _ => false end.

Definition is_reset (e : event) : bool :=
  match e with ERemoveElgato => true | _ => false end.

(** Calls that touch the USB stack or the device. *)
Definition is_device_access (e : event) : bool :=
  match e with
  | ELibusbInit | EOpenDevice _ _ | EKernelDriverActive _
  | EDetachKernelDriver _ | ESetConfiguration _ | EClaimInterface _
  | EConfigure _ | EReceiveData | ERemoveElgato | EReleaseInterface _
  | ELibusbClose | ELibusbExit => true
  | _ => false
  end.

Definition count (p : event -> bool) (t : list event) : nat :=
  List.length (filter p t).

(** How many events so far satisfy [p]. *)
Definition occurrences (p : event -> bool) (g : globals) : nat :=
  count p (trace g).

(** Every [clean_up] ends with the line "Terminating.", printed nowhere
    else. *)
Definition clean_up_calls (g : globals) : nat := occurrences is_clean_up_end g.

(** The signals on which [sig_handler] clears the run flag. *)
Definition stop_signal (sig : Z) : bool := (sig =? SIGINT) || (sig =? SIGTERM).

(** The signals whose disposition [main] sets. *)
Definition disposed (sig : Z) : bool :=
  (sig =? SIGINT) || (sig =? SIGTERM) || (sig =? SIGPIPE).

(** ** The command line, as the specification words it *)

(** The seven literal tokens with the resolution each one selects. *)
Definition resolution_tokens : list (string * Z) :=
  [("720p", v720p); ("1080p", v1080p); ("576i", v576i); ("c576p", vc576p);
   ("c720p", vc720p); ("c1080i", vc1080i); ("c1080p", vc1080p)].

(** The initialisation script that belongs to each token. *)
Definition token_scripts : list (string * script) :=
  [("720p", configure_dev_720p); ("1080p", configure_dev_1080p);
   ("576i", configure_dev_576i); ("c576p", configure_dev_component_576p);
   ("c720p", configure_dev_component_720p);
   ("c1080i", configure_dev_component_1080i);
   ("c1080p", configure_dev_component_1080p)].

(** One result of [getopt_long] is acceptable: it is the resolution option
    and its argument is one of the seven tokens. *)
Definition accepted (o : Z * string) : bool :=
  (fst o =? chr "r") && existsb (String.eqb (snd o)) (map fst resolution_tokens).

(** ** Device identities, as the specification words them *)

(** The candidates in priority order; the fourth is the revision that is
    recognised but not supported. *)
Definition candidates : list Z :=
  [GAME_CAPTURE_HD_PID_0; GAME_CAPTURE_HD_PID_1; GAME_CAPTURE_HD_PID_2;
   GAME_CAPTURE_HD_PID_3].

Definition supported : list Z :=
  [GAME_CAPTURE_HD_PID_0; GAME_CAPTURE_HD_PID_1; GAME_CAPTURE_HD_PID_2].

(** The candidates probed under first-match-wins: all up to and including
    the first that matches. *)
Fixpoint tried (matches : Z -> bool) (ids : list Z) : list Z :=
  match ids with
  | [] => []
  | pid :: rest => pid :: if matches pid then [] else tried matches rest
  end.

Definition unsupported_notice : string :=
  "This revision of the Elgato Game Capture HD is currently not supported.".

(** ** Guarded clean-up, as the specification words it *)

(** Every step of clean-up found in the trace [t] acts on a resource that
    the run acquired: the interface was claimed, the sink was opened, the
    USB context was brought up. *)
Definition acts_only_on_acquired (env : Env) (t : list event) : Prop :=
  (In (EReleaseInterface INTERFACE_NUM) t ->
   In (EClaimInterface INTERFACE_NUM) t /\ claim_interface_result env = 0) /\
  ((exists fd, In (ECloseFd fd) t) \/ In (EUnlink fifo_path) t ->
   In (EOpenFifo fifo_path) t) /\
  (In ELibusbExit t -> In ELibusbInit t /\ libusb_init_result env = 0).

(** The calls by which [clean_up] gives the device and libusb back. *)
Definition is_teardown (e : event) : bool :=
  match e with
  | ERemoveElgato | EReleaseInterface _ | ELibusbClose | ELibusbExit => true
  | _ => false
  end.

(** What the globals [libusb_ret] and [devh] record about the run so far:
    a zero [libusb_ret] comes from a successful [libusb_init], a non-NULL
    [devh] from a successful open of an attached device. *)
Definition acquired_inv (env : Env) (g : globals) : Prop :=
  (libusb_ret g = 0 -> In ELibusbInit (trace g) /\ libusb_init_result env = 0) /\
  (forall h, devh g = Some h ->
             In (EOpenDevice (fst h) (snd h)) (trace g) /\
             present env (fst h) (snd h) = true).

Definition keeps_inv (env : Env) (g g0 : globals) : Prop :=
  acquired_inv env g -> acquired_inv env g0.

(** ** Resources, as the specification words them *)

Inductive resource := Interface | Handle | Context | SinkDescriptor | SinkEntry.

Definition resource_eqb (a b : resource) : bool :=
  match a, b with
  | Interface, Interface | Handle, Handle | Context, Context
  | SinkDescriptor, SinkDescriptor | SinkEntry, SinkEntry => true
  | _, _ => false
  end.

(** What a call depends on: commands to the device need the claimed
    interface, the handle and the USB context; the interface is released
    through the handle; the handle lives in the context. *)
Definition needs (e : event) : list resource :=
  match e with
  | EConfigure _ | EReceiveData | ERemoveElgato | EReleaseInterface _ =>
      [Interface; Handle; Context]
  | ELibusbClose => [Handle; Context]
  | ELibusbExit => [Context]
  | ECloseFd _ => [SinkDescriptor]
  | EUnlink _ => [SinkEntry]
  | _ => []
  end.

(** What a call gives back. *)
Definition releases (e : event) : list resource :=
  match e with
  | EReleaseInterface _ => [Interface]
  | ELibusbClose => [Handle]
  | ELibusbExit => [Context]
  | ECloseFd _ => [SinkDescriptor]
  | EUnlink _ => [SinkEntry]
  | _ => []
  end.

(** No call of [t] needs a resource that [released] holds or that an
    earlier call of [t] has given back. *)
Fixpoint no_use_after_release (released : list resource) (t : list event) : bool :=
  match t with
  | [] => true
  | e :: rest =>
      forallb (fun r => negb (existsb (resource_eqb r) released)) (needs e)
      && no_use_after_release (releases e ++ released) rest
  end.

(** ** Sample environments *)

Definition no_signal : point -> list Z := fun _ => [].

(** A supported device is attached and every call succeeds; SIGINT arrives
    during the third transfer. *)
Definition env_ok : Env :=
  {| fw_present := fun _ => true;
     libusb_init_result := 0;
     usb_devices := [(ELGATO_VENDOR, GAME_CAPTURE_HD_PID_1)];
     kernel_driver_active := 1;
     set_configuration_result := 0;
     claim_interface_result := 0;
     open_result := 3;
     configure_succeeds := fun _ => true;
     sig_at := no_signal;
     sig_loop := [[]; []; []; [SIGINT]] |}.

(** The firmware file of the encoder is not installed. *)
Definition env_no_firmware : Env :=
  {| fw_present := fun f =>
       match f with FW_MB86H57_H58_IDLE => true | FW_MB86H57_H58_ENC => false end;
     libusb_init_result := 0;
     usb_devices := [(ELGATO_VENDOR, GAME_CAPTURE_HD_PID_1)];
     kernel_driver_active := 1;
     set_configuration_result := 0;
     claim_interface_result := 0;
     open_result := 3;
     configure_succeeds := fun _ => true;
     sig_at := no_signal;
     sig_loop := [] |}.

(** Only the revision with the fourth product id is attached. *)
Definition env_unsupported : Env :=
  {| fw_present := fun _ => true;
     libusb_init_result := 0;
     usb_devices := [(ELGATO_VENDOR, GAME_CAPTURE_HD_PID_3)];
     kernel_driver_active := 0;
     set_configuration_result := 0;
     claim_interface_result := 0;
     open_result := 3;
     configure_succeeds := fun _ => true;
     sig_at := no_signal;
     sig_loop := [] |}.

(** No Elgato device is attached. *)
Definition env_no_device : Env :=
  {| fw_present := fun _ => true;
     libusb_init_result := 0;
     usb_devices := [];
     kernel_driver_active := 0;
     set_configuration_result := 0;
     claim_interface_result := 0;
     open_result := 3;
     configure_succeeds := fun _ => true;
     sig_at := no_signal;
     sig_loop := [] |}.

(** A supported device is attached but another process holds its interface:
    [libusb_claim_interface] answers LIBUSB_ERROR_BUSY. *)
Definition env_claim_fails : Env :=
  {| fw_present := fun _ => true;
     libusb_init_result := 0;
     usb_devices := [(ELGATO_VENDOR, GAME_CAPTURE_HD_PID_0)];
     kernel_driver_active := 0;
     set_configuration_result := 0;
     claim_interface_result := -6;
     open_result := 3;
     configure_succeeds := fun _ => true;
     sig_at := no_signal;
     sig_loop := [] |}.

(** Everything succeeds, and SIGTERM arrives while [open] waits for a reader
    of the FIFO. *)
Definition env_interrupted : Env :=
  {| fw_present := fun _ => true;
     libusb_init_result := 0;
     usb_devices := [(ELGATO_VENDOR, GAME_CAPTURE_HD_PID_2)];
     kernel_driver_active := 0;
     set_configuration_result := 0;
     claim_interface_result := 0;
     open_result := -1;
     configure_succeeds := fun _ => true;
     sig_at := fun p => match p with WaitingForReader => [SIGTERM] | _ => [] end;
     sig_loop := [] |}.

(** The globals after the signals [sigs] have been handled, in closed
    form. *)
Definition delivered (sigs : list Z) (g : globals) : globals :=
  {| is_running := if existsb stop_signal sigs then 0 else is_running g;
     libusb_ret := libusb_ret g; fd_fifo := fd_fifo g;
     init_has_been_run := init_has_been_run g; devh := devh g;
     trace := trace g ++ map (fun _ => EMsg stop_notice)
                             (filter stop_signal sigs) |}.

(** The calls and lines one run of [clean_up] adds to the trace, in closed
    form. *)
Definition clean_up_events (g : globals) : list event :=
  (if is_null (devh g) then []
   else (if init_has_been_run g =? 0 then []
         else [ERemoveElgato; EMsg "Device has been reset."])
        ++ [EReleaseInterface INTERFACE_NUM; ELibusbClose])
  ++ (if libusb_ret g =? 0 then [ELibusbExit] else [])
  ++ [ECloseFd (fd_fifo g); EUnlink fifo_path; EMsg "Terminating."].

Definition cleaned_up (g : globals) : globals :=
  {| is_running := is_running g; libusb_ret := libusb_ret g;
     fd_fifo := fd_fifo g; init_has_been_run := init_has_been_run g;
     devh := devh g; trace := trace g ++ clean_up_events g |}.

(** ** Relations between the globals before and after a program *)

(** [c] relates the globals it starts from to those it ends with by [R]. *)
Definition respects (R : globals -> globals -> Prop) {A} (c : prog A) : Prop :=
  forall g, R g (snd (c g)).

(** The relation "the observation [f] of the globals is unchanged". *)
Definition keeps {T} (f : globals -> T) (g g' : globals) : Prop := f g' = f g.

(** The relation "the run flag has not gone from zero to non-zero". *)
Definition never_rises (g g' : globals) : Prop :=
  is_running g = 0 -> is_running g' = 0.

(** ** The command line as [getopt_long] reads it *)

(** One element of the array of long options: [struct option], whose
    [name] is a pointer; [None] is NULL. *)
Record long_option := {
  name : option string;
  has_arg : Z;
  flag : Z;
  val : Z
}.

Definition no_argument : Z := 0.
Definition required_argument : Z := 1.

(** [longOptions] of [main]: the array has this one element.  No element
    filled with zeros follows it. *)
Definition longOptions : list long_option :=
  [ {| name := Some "resolution"; has_arg := required_argument; flag := 0;
       val := chr "r" |} ].

(** The element filled with zeros that [getopt_long] requires as the last
    one of the array. *)
Definition terminator : long_option :=
  {| name := None; has_arg := 0; flag := 0; val := 0 |}.

(** The outcome of looking a name up in the array.  [PastEnd]: the scan
    has stepped beyond the last element of the array, which is undefined
    behaviour. *)
Inductive lookup :=
| Found (o : long_option)
| Unrecognized
| Ambiguous
| PastEnd.

(** [getopt_long] scans the array from its first element until it meets a
    NULL [name], stopping early only at an exact match. *)
Fixpoint exact_match (table : list long_option) (nm : string) : lookup :=
  match table with
  | [] => PastEnd
  | p :: rest =>
      match name p with
      | None => Unrecognized
      | Some n => if (n =? nm)%string then Found p else exact_match rest nm
      end
  end.

(** Without an exact match, a second scan collects the elements of which
    [nm] is an abbreviation. *)
Fixpoint abbreviations (table : list long_option) (nm : string) : list long_option :=
  match table with
  | [] => []
  | p :: rest =>
      match name p with
      | None => []
      | Some n => if prefix nm n then p :: abbreviations rest nm
                  else abbreviations rest nm
      end
  end.

Definition same_option (a b : long_option) : bool :=
  (has_arg a =? has_arg b) && (flag a =? flag b) && (val a =? val b).

Definition lookup_long (table : list long_option) (nm : string) : lookup :=
  match exact_match table nm with
  | Unrecognized =>
      match abbreviations table nm with
      | [] => Unrecognized
      | p :: others => if forallb (same_option p) others then Found p else Ambiguous
      end
  | r => r
  end.

(** The text of a long option up to its first '=', and what follows it. *)
Fixpoint split_at_equals (s : string) : string * option string :=
  match s with
  | EmptyString => (EmptyString, None)
  | String c rest =>
      if Ascii.eqb c "=" then (EmptyString, Some rest)
      else let (n, a) := split_at_equals rest in (String c n, a)
  end.

(** What [getopt_long] returns for the long option [--body], with [next]
    the element of [argv] that follows, if any: the value returned with
    [optarg], and whether [next] was taken as the argument.  The option
    string "r:" does not start with ':', so a missing argument is reported
    as '?'.  [None]: undefined behaviour. *)
Definition getopt_long_option (table : list long_option) (body : string)
    (next : option string) : option ((Z * string) * bool) :=
  let (nm, arg) := split_at_equals body in
  match lookup_long table nm with
  | PastEnd => None
  | Unrecognized | Ambiguous => Some ((chr "?", ""), false)
  | Found o =>
      let ret := if flag o =? 0 then val o else 0 in
      match arg with
      | Some a =>
          if has_arg o =? no_argument then Some ((chr "?", ""), false)
          else Some ((ret, a), false)
      | None =>
          if has_arg o =? required_argument
          then match next with
               | Some a => Some ((ret, a), true)
               | None => Some ((chr "?", ""), false)
               end
          else Some ((ret, ""), false)
      end
  end.

(** What [getopt_long] returns, call after call, for the short options
    [-cluster] under the option string "r:": 'r' takes the rest of the
    element as its argument, or else the next element; every other
    character is reported as '?'. *)
Fixpoint getopt_short_options (cluster : string) (next : option string)
    : list (Z * string) * bool :=
  match cluster with
  | EmptyString => ([], false)
  | String c rest =>
      if Ascii.eqb c "r"
      then match rest with
           | EmptyString =>
               match next with
               | Some a => ([(chr "r", a)], true)
               | None => ([(chr "?", "")], false)
               end
           | _ => ([(chr "r", rest)], false)
           end
      else let (results, taken) := getopt_short_options rest next in
           ((chr "?", "") :: results, taken)
  end.

Inductive parsed :=
| Selected (resolution : Z)
| Usage (line : string)
| UndefinedBehaviour.

(** The option loop of [main] over the elements of [argv] after the
    program name: each result of [getopt_long] goes through the switch of
    [parse_options] as soon as it is returned, so that nothing after a
    rejected option is looked at.  [getopt_long] passes over the elements
    that are not options and stops at "--".  [taken]: the first element has
    been taken as the argument of the option before it. *)
Fixpoint parse_argv (table : list long_option) (args : list string)
    (taken : bool) (resolution : Z) : parsed :=
  match args with
  | [] => Selected resolution
  | el :: rest =>
      if taken then parse_argv table rest false resolution
      else
        match el with
        | String "-" (String "-" EmptyString) => Selected resolution
        | String "-" (String "-" body) =>
            match getopt_long_option table body (hd_error rest) with
            | None => UndefinedBehaviour
            | Some (result, taken') =>
                match parse_options [result] resolution with
                | inr line => Usage line
                | inl r => parse_argv table rest taken' r
                end
            end
        | String "-" EmptyString => parse_argv table rest false resolution
        | String "-" cluster =>
            let (results, taken') := getopt_short_options cluster (hd_error rest) in
            match parse_options results resolution with
            | inr line => Usage line
            | inl r => parse_argv table rest taken' r
            end
        | _ => parse_argv table rest false resolution
        end
  end.

(** What a process does: nothing can be said after undefined behaviour. *)
Inductive behaviour :=
| Undefined
| Behaves (run : option (Z * globals)).

(** [main] on its argument vector, program name first. *)
Definition main_argv (env : Env) (argv : list string) : behaviour :=
  match parse_argv longOptions (tl argv) false 0 with
  | UndefinedBehaviour => Undefined
  | Usage line => Behaves (Some (EXIT_FAILURE, exec (fprintf line) initial))
  | Selected resolution => Behaves (lifecycle env resolution)
  end.

(** ** The blocking open of the FIFO *)

(** [open(fifo_path, O_WRONLY)] returns only once a reader has opened the
    FIFO; a signal does not end the wait, which goes on after the handler
    has returned.  [acquire] and [main] describe the runs in which the call
    returns, with [open_result] as its value.  [main_blocking] adds the
    other case: [open_returns] tells whether the call ever returns, and a
    run that reaches the call ([acquire] continues exactly on that path)
    without it returning never returns. *)
Definition main_blocking (env : Env) (open_returns : bool)
    (opts : list (Z * string)) : option (Z * globals) :=
  match parse_options opts 0 with
  | inr line => Some (EXIT_FAILURE, exec (fprintf line) initial)
  | inl resolution =>
      if fst (acquire env initial) && negb open_returns then None
      else lifecycle env resolution
  end.

(** ** Closed forms and summaries of a run *)

(** The calls and lines one run of [get_interface] adds to the trace. *)
Definition get_interface_events (env : Env) : list event :=
  [EKernelDriverActive INTERFACE_NUM]
  ++ (if kernel_driver_active env =? 0 then []
      else [EDetachKernelDriver INTERFACE_NUM])
  ++ [ESetConfiguration CONFIGURATION]
  ++ (if set_configuration_result env =? 0
      then EClaimInterface INTERFACE_NUM
           :: (if claim_interface_result env =? 0 then []
               else [EMsg "Failed to claim interface."])
      else [EMsg "Could not activate configuration."]).


(** The signals that arrive before the run flag is read for the first
    time. *)
Definition setup_signals (env : Env) : list Z :=
  sig_at env BeforeFirmwareCheck ++ sig_at env BeforeLocate
  ++ sig_at env BeforeAcquire ++ sig_at env BeforeSink
  ++ sig_at env WaitingForReader.

Definition firmware_ok (env : Env) : bool :=
  fw_present env FW_MB86H57_H58_IDLE && fw_present env FW_MB86H57_H58_ENC.

(** libusb comes up and one of the supported identities is attached. *)
Definition located (env : Env) : bool :=
  (libusb_init_result env =? 0) && existsb (present env ELGATO_VENDOR) supported.

(** The configuration is set and the interface is claimed. *)
Definition claimed (env : Env) : bool :=
  (set_configuration_result env =? 0) && (claim_interface_result env =? 0).

(** Everything [main] needs of the outside world to reach the
    configuration block. *)
Definition setup_ok (env : Env) : bool :=
  firmware_ok env && located env && claimed env.

(** libusb comes up and one of the four identities is attached, so that
    [devh] holds a handle. *)
Definition handle_opened (env : Env) : bool :=
  firmware_ok env && (libusb_init_result env =? 0)
  && existsb (present env ELGATO_VENDOR) candidates.

(** The handler's lines for a batch of signals: one for each SIGINT or
    SIGTERM. *)
Definition notices (sigs : list Z) : list event :=
  map (fun _ => EMsg stop_notice) (filter stop_signal sigs).

(** The calls and lines one run of [init_dev_handler] adds to the trace. *)
Definition init_dev_handler_events (env : Env) : list event :=
  ELibusbInit
  :: (if libusb_init_result env =? 0
      then map (EOpenDevice ELGATO_VENDOR)
               (tried (present env ELGATO_VENDOR) candidates)
           ++ (if existsb (present env ELGATO_VENDOR) supported then []
               else if present env ELGATO_VENDOR GAME_CAPTURE_HD_PID_3
                    then [EMsg unsupported_notice] else [])
      else [EMsg "Error initializing libusb."]).

(** The signals handled by the time [acquire] returns. *)
Definition acquire_signals (env : Env) : list Z :=
  sig_at env BeforeFirmwareCheck
  ++ (if firmware_ok env
      then sig_at env BeforeLocate
           ++ (if located env
               then sig_at env BeforeAcquire
                    ++ (if claimed env
                        then sig_at env BeforeSink ++ sig_at env WaitingForReader
                        else [])
               else [])
      else []).

(** The trace of [acquire]. *)
Definition acquire_events (env : Env) : list event :=
  notices (sig_at env BeforeFirmwareCheck)
  ++ EAccess FW_MB86H57_H58_IDLE
  :: (if fw_present env FW_MB86H57_H58_IDLE
      then [EAccess FW_MB86H57_H58_ENC] else [])
  ++ (if firmware_ok env
      then notices (sig_at env BeforeLocate)
           ++ init_dev_handler_events env
           ++ (if located env
               then notices (sig_at env BeforeAcquire)
                    ++ get_interface_events env
                    ++ (if claimed env
                        then notices (sig_at env BeforeSink)
                             ++ [EMkfifo fifo_path;
                                 EMsg "/tmp/elgato_gchd.ts has been created. Waiting for user to open it.";
                                 EOpenFifo fifo_path]
                             ++ notices (sig_at env WaitingForReader)
                        else [EMsg "Could not claim interface."])
               else [EMsg "Unable to find device."])
      else [EMsg "Firmware files missing."]).

(** The globals [acquire] leaves. *)
Definition acquired (env : Env) : globals :=
  {| is_running := if existsb stop_signal (acquire_signals env) then 0 else 1;
     libusb_ret := if firmware_ok env then libusb_init_result env else 1;
     fd_fifo := if setup_ok env then open_result env else 0;
     init_has_been_run := 0;
     devh := if firmware_ok env && (libusb_init_result env =? 0)
             then option_map (fun pid => (ELGATO_VENDOR, pid))
                    (find (present env ELGATO_VENDOR) candidates)
             else None;
     trace := acquire_events env |}.

(** The same outside world with other signals during set-up. *)
Definition with_signals (sigs : point -> list Z) (env : Env) : Env :=
  {| fw_present := fw_present env;
     libusb_init_result := libusb_init_result env;
     usb_devices := usb_devices env;
     kernel_driver_active := kernel_driver_active env;
     set_configuration_result := set_configuration_result env;
     claim_interface_result := claim_interface_result env;
     open_result := open_result env;
     configure_succeeds := configure_succeeds env;
     sig_at := sigs;
     sig_loop := sig_loop env |}.

Definition is_notice (e : event) : bool :=
  match e with EMsg line => (line =? stop_notice)%string | _ => false end.

(** Events that only [clean_up] produces. *)
Definition is_clean_up_event (e : event) : bool :=
  match e with
  | ERemoveElgato | EReleaseInterface _ | ELibusbClose | ELibusbExit
  | ECloseFd _ | EUnlink _ => true
  | EMsg line =>
      ((line =? "Device has been reset.") || (line =? "Terminating."))%string
  | _ => false
  end.

Definition is_libusb_exit (e : event) : bool :=
  match e with ELibusbExit => true | _ => false end.

Definition is_libusb_close (e : event) : bool :=
  match e with ELibusbClose => true | _ => false end.

Definition is_release (e : event) : bool :=
  match e with EReleaseInterface _ => true | _ => false end.

Definition is_close_fd (e : event) : bool :=
  match e with ECloseFd _ => true | _ => false end.

Definition is_unlink (e : event) : bool :=
  match e with EUnlink _ => true | _ => false end.

Definition is_mkfifo (e : event) : bool :=
  match e with EMkfifo _ => true | _ => false end.

Definition is_open_fifo (e : event) : bool :=
  match e with EOpenFifo _ => true | _ => false end.

Definition is_open_device (e : event) : bool :=
  match e with EOpenDevice _ _ => true | _ => false end.

(** The diagnostic lines of a trace, the notices of the signal handler
    left out. *)
Definition event_lines (e : event) : list string :=
  match e with
  | EMsg line => if (line =? stop_notice)%string then [] else [line]
  | _ => []
  end.

Definition lines (t : list event) : list string := flat_map event_lines t.

(** What a run that fails during set-up prints before "Terminating.". *)
Definition failure_lines (env : Env) : list string :=
  if negb (firmware_ok env) then ["Firmware files missing."]
  else if negb (libusb_init_result env =? 0)
  then ["Error initializing libusb."; "Unable to find device."]
  else if negb (existsb (present env ELGATO_VENDOR) supported)
  then (if present env ELGATO_VENDOR GAME_CAPTURE_HD_PID_3
        then [unsupported_notice] else [])
       ++ ["Unable to find device."]
  else if negb (set_configuration_result env =? 0)
  then ["Could not activate configuration."; "Could not claim interface."]
  else ["Failed to claim interface."; "Could not claim interface."].

(** ** Frame rules

    A reflexive and transitive relation is respected by a program as soon
    as every primitive action of it respects it. *)

Section Frames.

Variable R : globals -> globals -> Prop.
Hypothesis R_refl : forall g, R g g.
Hypothesis R_trans : forall a b c, R a b -> R b c -> R a c.

Lemma respects_ret {A} (a : A) : respects R (ret a).
Proof. intros g. apply R_refl. Qed.

Lemma respects_read {A} (f : globals -> A) : respects R (read f).
Proof. intros g. apply R_refl. Qed.

Lemma respects_act (f : globals -> globals) :
  (forall g, R g (f g)) -> respects R (act f).
Proof. intros H g. apply H. Qed.

Lemma respects_bind {A B} (c : prog A) (k : A -> prog B) :
  respects R c -> (forall a, respects R (k a)) -> respects R (bind c k).
Proof.
  intros Hc Hk g. unfold bind. specialize (Hc g).
  destruct (c g) as [a g1]. simpl in Hc.
  eapply R_trans; [exact Hc | apply Hk].
Qed.

Lemma respects_if {A} (b : bool) (c1 c2 : prog A) :
  respects R c1 -> respects R c2 -> respects R (if b then c1 else c2).
Proof. destruct b; auto. Qed.

End Frames.

Lemma keeps_refl {T} (f : globals -> T) g : keeps f g g.
Proof. reflexivity. Qed.

Lemma keeps_trans {T} (f : globals -> T) a b c :
  keeps f a b -> keeps f b c -> keeps f a c.
Proof. unfold keeps. congruence. Qed.

Lemma never_rises_refl g : never_rises g g.
Proof. unfold never_rises. auto. Qed.

Lemma never_rises_trans a b c :
  never_rises a b -> never_rises b c -> never_rises a c.
Proof. unfold never_rises. auto. Qed.

Lemma count_app p t1 t2 : count p (t1 ++ t2) = (count p t1 + count p t2)%nat.
Proof. unfold count. rewrite filter_app, length_app. reflexivity. Qed.

Lemma count_snoc p t e :
  count p (t ++ [e]) = (count p t + if p e then 1 else 0)%nat.
Proof. rewrite count_app. unfold count. simpl. destruct (p e); reflexivity. Qed.

Lemma count_zero_not_In p t e : count p t = 0%nat -> p e = true -> ~ In e t.
Proof.
  unfold count. intros H He Hin.
  assert (Hf : In e (filter p t)) by (apply filter_In; auto).
  destruct (filter p t); [contradiction | discriminate].
Qed.

(** Decomposes a [respects] goal along the structure of the program. *)
Ltac frame_step R_refl R_trans :=
  lazymatch goal with
  | |- respects _ (ret _) => apply (respects_ret _ R_refl)
  | |- respects _ (read _) => apply (respects_read _ R_refl)
  | |- respects _ (bind _ _) => apply (respects_bind _ R_trans); [ | intros ? ]
  | |- respects _ (act _) => apply respects_act; intros ?
  | |- respects _ (if _ then _ else _) => apply respects_if
  end.

Ltac frame R_refl R_trans := repeat frame_step R_refl R_trans.

(** ** The run flag *)

Ltac unfold_flow :=
  unfold setup, configure_stage, acquire, configure_switch, configure_dev,
    clean_up, get_interface, init_dev_handler, try_open,
    libusb_open_device_with_vid_pid, remove_elgato, receive_data,
    sig_handler, fprintf, call.

Ltac keeps_field f :=
  unfold_flow; frame (keeps_refl f) (@keeps_trans _ f); reflexivity.

Lemma sig_handler_flag sig g :
  is_running (exec (sig_handler sig) g) =
  if stop_signal sig then 0 else is_running g.
Proof.
  unfold stop_signal, sig_handler, exec, bind, fprintf, act.
  simpl. destruct (sig =? SIGINT); simpl; [reflexivity|].
  destruct (sig =? SIGTERM); reflexivity.
Qed.

Lemma sig_handler_never_rises sig : respects never_rises (sig_handler sig).
Proof.
  unfold_flow. frame never_rises_refl never_rises_trans;
    unfold never_rises; simpl; auto.
Qed.

Lemma on_signal_flag sig g :
  is_running (exec (on_signal sig) g) =
  if stop_signal sig then 0 else is_running g.
Proof.
  unfold on_signal, stop_signal.
  destruct (sig =? SIGINT) eqn:Hi.
  - rewrite sig_handler_flag. unfold stop_signal. rewrite Hi. reflexivity.
  - destruct (sig =? SIGTERM) eqn:Ht.
    + rewrite sig_handler_flag. unfold stop_signal. rewrite Hi, Ht. reflexivity.
    + destruct (sig =? SIGPIPE); reflexivity.
Qed.

Lemma on_signal_never_rises sig : respects never_rises (on_signal sig).
Proof.
  unfold on_signal.
  repeat first [ apply sig_handler_never_rises
               | frame_step never_rises_refl never_rises_trans ].
Qed.

Lemma deliver_never_rises sigs : respects never_rises (deliver sigs).
Proof.
  induction sigs as [|s rest IH]; simpl.
  - apply (respects_ret _ never_rises_refl).
  - apply (respects_bind _ never_rises_trans); auto using on_signal_never_rises.
Qed.

Lemma keeps_never_rises {A} (c : prog A) :
  respects (keeps is_running) c -> respects never_rises c.
Proof. intros H g Hg. rewrite (H g). exact Hg. Qed.

Section RunFlag.

Variable env : Env.

Lemma init_dev_handler_keeps_running :
  respects (keeps is_running) (init_dev_handler env).
Proof. keeps_field is_running. Qed.

Lemma get_interface_keeps_running :
  respects (keeps is_running) (get_interface env).
Proof. keeps_field is_running. Qed.

Lemma clean_up_keeps_running : respects (keeps is_running) clean_up.
Proof. keeps_field is_running. Qed.

Lemma receive_data_keeps_running : respects (keeps is_running) receive_data.
Proof. keeps_field is_running. Qed.

Lemma configure_stage_keeps_running res :
  respects (keeps is_running) (configure_stage env res).
Proof. keeps_field is_running. Qed.

Lemma acquire_never_rises : respects never_rises (acquire env).
Proof.
  unfold acquire.
  repeat first
    [ apply deliver_never_rises
    | apply keeps_never_rises, init_dev_handler_keeps_running
    | apply keeps_never_rises, get_interface_keeps_running
    | frame_step never_rises_refl never_rises_trans
    | progress unfold fprintf, call ];
    unfold never_rises; simpl; auto.
Qed.

Lemma setup_never_rises res : respects never_rises (setup env res).
Proof.
  unfold setup.
  apply (respects_bind _ never_rises_trans); [apply acquire_never_rises|].
  intros [|].
  - apply (respects_bind _ never_rises_trans).
    + apply keeps_never_rises, configure_stage_keeps_running.
    + intros _. apply (respects_ret _ never_rises_refl).
  - apply (respects_ret _ never_rises_refl).
Qed.

Lemma capture_loop_stops sched g g' :
  capture_loop sched g = Some g' -> is_running g' = 0.
Proof.
  revert g. induction sched as [|sigs rest IH]; simpl; intros g H.
  - destruct (is_running g =? 0) eqn:E; [|discriminate].
    injection H as <-. apply Z.eqb_eq, E.
  - destruct (is_running (exec (deliver sigs) g) =? 0) eqn:E.
    + injection H as <-. apply Z.eqb_eq, E.
    + eapply IH, H.
Qed.

End RunFlag.

(** C9: the run flag starts at 1; the signal handler either clears it or
    leaves it alone, so a cleared flag stays cleared under any delivery of
    signals; no other function of the main flow writes it; hence across
    set-up, the capture loop and clean-up it never goes from 0 back to
    non-zero, and the capture loop can only end with the flag cleared. *)
Theorem run_flag_only_falls :
  is_running initial = 1 /\
  (forall sig g,
      is_running (exec (sig_handler sig) g) =
      if stop_signal sig then 0 else is_running g) /\
  (forall sigs, respects never_rises (deliver sigs)) /\
  (forall env res,
      respects (keeps is_running) (init_dev_handler env) /\
      respects (keeps is_running) (get_interface env) /\
      respects (keeps is_running) (configure_stage env res) /\
      respects (keeps is_running) receive_data /\
      respects (keeps is_running) clean_up) /\
  (forall env res, respects never_rises (setup env res)) /\
  (forall sched g g', capture_loop sched g = Some g' -> is_running g' = 0).
Proof.
  split; [reflexivity|].
  split; [exact sig_handler_flag|].
  split; [exact deliver_never_rises|].
  split.
  { intros env res.
    repeat split;
      auto using init_dev_handler_keeps_running, get_interface_keeps_running,
        configure_stage_keeps_running, receive_data_keeps_running,
        clean_up_keeps_running. }
  split; [exact setup_never_rises|].
  exact capture_loop_stops.
Qed.

(** ** Counting events *)

Lemma deliver_occurrences p sigs :
  p (EMsg stop_notice) = false -> respects (keeps (occurrences p)) (deliver sigs).
Proof.
  intros Hp. induction sigs as [|s rest IH]; simpl.
  - apply (respects_ret _ (keeps_refl _)).
  - apply (respects_bind _ (@keeps_trans _ _)); [|intros _; exact IH].
    unfold on_signal, sig_handler, fprintf.
    frame (keeps_refl (occurrences p)) (@keeps_trans _ (occurrences p));
      unfold keeps, occurrences; simpl; rewrite ?count_snoc, ?Hp; lia.
Qed.

Ltac occ_leaf :=
  unfold keeps, occurrences;
  cbn [trace emit set_devh set_libusb_ret set_fd_fifo set_init_has_been_run
       set_is_running];
  rewrite ?count_snoc; simpl; lia.

Ltac occ p :=
  repeat first
    [ apply deliver_occurrences; reflexivity
    | frame_step (keeps_refl (occurrences p)) (@keeps_trans _ (occurrences p))
    | progress unfold_flow ];
  occ_leaf.

(** The resolution that option parsing selects is one of the enumeration. *)
Lemma parse_options_range opts r res :
  parse_options opts r = inl res -> 0 <= r <= 6 -> 0 <= res <= 6.
Proof.
  revert r. induction opts as [|[opt optarg] rest IH]; simpl; intros r H Hr.
  - injection H as <-. exact Hr.
  - destruct (opt =? chr "r").
    + repeat match type of H with
             | (if ?b then _ else _) = _ =>
                 destruct b; [eapply IH; [exact H | unfold v720p, v1080p, v576i, vc576p, vc720p, vc1080i, vc1080p; lia] | ]
             end.
      discriminate.
    + destruct (opt =? chr ":"); [discriminate|].
      destruct (opt =? chr "?"); discriminate.
Qed.

Section Counting.

Variable env : Env.

(** Within the enumeration the [default:] branch of the switch is dead. *)
Lemma configure_switch_in_range res :
  0 <= res <= 6 -> exists s, configure_switch env res = configure_dev env s.
Proof.
  intros H. unfold configure_switch.
  repeat match goal with
         | |- exists s, (if ?b then _ else _) = _ =>
             destruct b eqn:?; [eexists; reflexivity|]
         end.
  unfold v720p, v1080p, v576i, vc576p, vc720p, vc1080i, vc1080p in *. lia.
Qed.

Lemma acquire_clean_up_calls :
  respects (keeps (occurrences is_clean_up_end)) (acquire env).
Proof. occ is_clean_up_end. Qed.

Lemma configure_dev_clean_up_calls s :
  respects (keeps (occurrences is_clean_up_end)) (configure_dev env s).
Proof. occ is_clean_up_end. Qed.

Lemma setup_clean_up_calls res :
  0 <= res <= 6 ->
  respects (keeps (occurrences is_clean_up_end)) (setup env res).
Proof.
  intros Hres. destruct (configure_switch_in_range res Hres) as [s Hs].
  unfold setup, configure_stage. rewrite Hs.
  repeat first
    [ apply acquire_clean_up_calls
    | apply configure_dev_clean_up_calls
    | frame_step (keeps_refl (occurrences is_clean_up_end))
        (@keeps_trans _ (occurrences is_clean_up_end))
    | progress unfold fprintf ];
    occ_leaf.
Qed.

Lemma capture_loop_occurrences p sched g g' :
  p (EMsg stop_notice) = false -> p EReceiveData = false ->
  capture_loop sched g = Some g' -> occurrences p g' = occurrences p g.
Proof.
  intros Hs Hr. revert g. induction sched as [|sigs rest IH]; simpl; intros g H.
  - destruct (is_running g =? 0); [|discriminate]. injection H as <-. reflexivity.
  - pose proof (deliver_occurrences p sigs Hs g) as Hd. unfold keeps in Hd.
    fold (exec (deliver sigs) g) in Hd.
    destruct (is_running (exec (deliver sigs) g) =? 0).
    + injection H as <-. exact Hd.
    + apply IH in H. rewrite H, <- Hd.
      unfold exec, receive_data, call, act, occurrences. simpl.
      rewrite count_snoc, Hr. lia.
Qed.

Lemma clean_up_clean_up_calls g :
  clean_up_calls (exec clean_up g) = S (clean_up_calls g).
Proof.
  unfold clean_up_calls, occurrences, exec, clean_up, bind, read, remove_elgato,
    fprintf, call, act.
  destruct (devh g) as [h|]; simpl;
    destruct (init_has_been_run g =? 0); simpl;
    destruct (libusb_ret g =? 0); simpl;
    rewrite ?count_snoc; simpl; lia.
Qed.

(** The capture loop ends exactly when the flag is already clear or a stop
    signal is still to come. *)
Lemma capture_loop_None sched g :
  capture_loop sched g = None ->
  is_running g <> 0 /\ existsb stop_signal (List.concat sched) = false.
Proof.
  revert g. induction sched as [|sigs rest IH]; simpl; intros g H.
  - destruct (is_running g =? 0) eqn:E; [discriminate|].
    split; [apply Z.eqb_neq, E | reflexivity].
  - destruct (is_running (exec (deliver sigs) g) =? 0) eqn:E; [discriminate|].
    apply IH in H. destruct H as [_ H].
    apply Z.eqb_neq in E.
    assert (Hpre : is_running g <> 0 /\ existsb stop_signal sigs = false).
    { clear H IH. revert g E. induction sigs as [|s l IHl]; intros g E.
      - split; [exact E | reflexivity].
      - simpl in E. unfold exec, bind in E.
        destruct (on_signal s g) as [u g1] eqn:Hh.
        fold (exec (deliver l) g1) in E.
        destruct (IHl g1 E) as [Hg1 Hl].
        pose proof (on_signal_flag s g) as Hs.
        unfold exec in Hs. rewrite Hh in Hs. simpl in Hs.
        simpl. rewrite Hl.
        destruct (stop_signal s); [congruence|].
        split; [congruence | reflexivity]. }
    destruct Hpre as [Hg Hsigs]. split; [exact Hg|].
    rewrite existsb_app, Hsigs, H. reflexivity.
Qed.

End Counting.

(** ** Clean-up runs once, and the exit status *)

Lemma capture_loop_total sched g :
  existsb stop_signal (List.concat sched) = true ->
  exists g', capture_loop sched g = Some g'.
Proof.
  intros H. destruct (capture_loop sched g) as [g'|] eqn:E.
  - eauto.
  - apply capture_loop_None in E. destruct E as [_ E]. congruence.
Qed.

(** C2: on every path past option parsing on which the process ends, the
    final trace holds exactly one run of [clean_up]; the only way not to end
    is that set-up reached the capture loop with the run flag set and no stop
    signal ever arrives. *)
Theorem clean_up_exactly_once env opts res :
  parse_options opts 0 = inl res ->
  match main env opts with
  | Some (_, g) => clean_up_calls g = 1%nat
  | None =>
      exists g1, setup env res initial = (true, g1) /\
                 is_running g1 <> 0 /\
                 existsb stop_signal (List.concat (sig_loop env)) = false
  end.
Proof.
  intros Hparse. unfold main, lifecycle. rewrite Hparse.
  assert (Hres : 0 <= res <= 6)
    by (eapply parse_options_range; [exact Hparse | lia]).
  pose proof (setup_clean_up_calls env res Hres initial) as Hsetup.
  unfold keeps in Hsetup.
  destruct (setup env res initial) as [streaming g1]. simpl in Hsetup.
  destruct streaming.
  - destruct (capture_loop (sig_loop env) g1) as [g2|] eqn:Hloop.
    + rewrite clean_up_clean_up_calls. unfold clean_up_calls.
      rewrite (capture_loop_occurrences _ _ _ _ eq_refl eq_refl Hloop), Hsetup.
      reflexivity.
    + apply capture_loop_None in Hloop. exists g1. tauto.
  - rewrite clean_up_clean_up_calls. unfold clean_up_calls.
    rewrite Hsetup. reflexivity.
Qed.

Lemma clean_up_exactly_once_witness :
  match main env_ok [(chr "r", "c1080i")] with
  | Some (_, g) => clean_up_calls g = 1%nat
  | None =>
      exists g1, setup env_ok vc1080i initial = (true, g1) /\
                 is_running g1 <> 0 /\
                 existsb stop_signal (List.concat (sig_loop env_ok)) = false
  end.
Proof.
  apply (clean_up_exactly_once env_ok [(chr "r", "c1080i")] vc1080i).
  reflexivity.
Defined.

(** C5: past option parsing, whenever [main] returns it returns 0, whatever
    failed on the way; and it does return as soon as set-up jumps to the
    label [end] or a stop signal reaches the capture loop. *)
Theorem exit_status_after_clean_up env opts res :
  parse_options opts 0 = inl res ->
  (forall rc g, main env opts = Some (rc, g) -> rc = 0) /\
  (fst (setup env res initial) = false \/
   existsb stop_signal (List.concat (sig_loop env)) = true ->
   exists g, main env opts = Some (0, g)).
Proof.
  intros Hparse. unfold main, lifecycle. rewrite Hparse.
  destruct (setup env res initial) as [streaming g1]. simpl.
  split.
  - intros rc g H. destruct streaming.
    + destruct (capture_loop (sig_loop env) g1); [|discriminate].
      injection H as <- _. reflexivity.
    + injection H as <- _. reflexivity.
  - intros [H|H].
    + subst streaming. eauto.
    + destruct streaming; [|eauto].
      destruct (capture_loop_total _ g1 H) as [g2 ->]. eauto.
Qed.

Lemma exit_status_after_clean_up_witness :
  (forall rc g, main env_no_firmware [] = Some (rc, g) -> rc = 0) /\
  (fst (setup env_no_firmware 0 initial) = false \/
   existsb stop_signal (List.concat (sig_loop env_no_firmware)) = true ->
   exists g, main env_no_firmware [] = Some (0, g)).
Proof. apply (exit_status_after_clean_up env_no_firmware [] 0). reflexivity. Defined.

(** ** Symbolic execution *)

Lemma on_signal_spec s g : on_signal s g = (tt, delivered [s] g).
Proof.
  unfold on_signal, delivered, stop_signal, sig_handler, bind, fprintf, act,
    ret, emit, set_is_running.
  cbn [existsb filter map orb].
  destruct (s =? SIGINT); cbn [orb app map].
  - reflexivity.
  - destruct (s =? SIGTERM); cbn [orb app map]; [reflexivity|].
    rewrite app_nil_r. destruct (s =? SIGPIPE); destruct g; reflexivity.
Qed.

Lemma deliver_spec sigs g : deliver sigs g = (tt, delivered sigs g).
Proof.
  revert g. induction sigs as [|s rest IH]; intros g.
  - unfold delivered. simpl. rewrite app_nil_r. destruct g; reflexivity.
  - simpl. unfold bind. rewrite on_signal_spec, IH.
    unfold delivered.
    cbn [is_running libusb_ret fd_fifo init_has_been_run devh trace
         existsb filter map orb app].
    rewrite <- app_assoc.
    destruct (stop_signal s); cbn [orb app map]; [|reflexivity].
    destruct (existsb stop_signal rest); reflexivity.
Qed.

Lemma count_map_const p (e : event) {A} (l : list A) :
  p e = false -> count p (map (fun _ => e) l) = 0%nat.
Proof.
  intros H. unfold count. induction l as [|a l IH]; simpl; [reflexivity|].
  rewrite H. exact IH.
Qed.

(** Runs a program on explicit globals, replacing each delivery of signals
    by its closed form. *)
Ltac run :=
  unfold main, lifecycle, setup, configure_stage, acquire;
  repeat (unfold bind, ret, act, read, exec, fprintf, call, delivered, emit,
            set_devh, set_libusb_ret, set_fd_fifo, set_init_has_been_run,
            set_is_running, initial;
          cbn [fst snd negb is_null is_running libusb_ret fd_fifo
               init_has_been_run devh trace app Z.eqb Pos.eqb];
          rewrite ?deliver_spec).

(** Evaluates [count] on a trace built from appends and handler lines. *)
Ltac count_trace :=
  unfold occurrences, delivered, emit;
  cbn [trace app];
  rewrite ?count_app, ?count_snoc, ?count_map_const by reflexivity.

(** ** Missing firmware *)

(** C8: when one of the two firmware files is absent, [main] prints
    "Firmware files missing.", cleans up and returns, and no call of its
    trace reaches libusb or the device. *)
Theorem missing_firmware_halts env opts res :
  parse_options opts 0 = inl res ->
  fw_present env FW_MB86H57_H58_IDLE = false \/
  fw_present env FW_MB86H57_H58_ENC = false ->
  exists g,
    main env opts = Some (0, g) /\
    In (EMsg "Firmware files missing.") (trace g) /\
    occurrences is_device_access g = 0%nat.
Proof.
  intros Hparse Hfw. run. rewrite Hparse. run.
  destruct (fw_present env FW_MB86H57_H58_IDLE) eqn:Hidle; run.
  - destruct Hfw as [Hfw|Hfw]; [discriminate|]. rewrite Hfw. run.
    eexists. split; [reflexivity|]. unfold clean_up. run.
    split.
    + rewrite !in_app_iff. simpl. tauto.
    + count_trace. reflexivity.
  - eexists. split; [reflexivity|]. unfold clean_up. run.
    split.
    + rewrite !in_app_iff. simpl. tauto.
    + count_trace. reflexivity.
Qed.

Lemma missing_firmware_halts_witness :
  exists g,
    main env_no_firmware [(chr "r", "1080p")] = Some (0, g) /\
    In (EMsg "Firmware files missing.") (trace g) /\
    occurrences is_device_access g = 0%nat.
Proof.
  apply (missing_firmware_halts env_no_firmware [(chr "r", "1080p")] v1080p).
  - reflexivity.
  - right. reflexivity.
Defined.

(** ** The resolution option *)

Lemma parse_token tok res rest r :
  In (tok, res) resolution_tokens ->
  parse_options ((chr "r", tok) :: rest) r = parse_options rest res.
Proof.
  intros H. simpl in H.
  repeat (destruct H as [H|H]; [injection H as <- <-; reflexivity|]).
  contradiction.
Qed.

Lemma parse_other_value tok rest r :
  ~ In tok (map fst resolution_tokens) ->
  parse_options ((chr "r", tok) :: rest) r = inr "Unsupported resolution.".
Proof.
  intros H. cbn [parse_options].
  replace (chr "r" =? chr "r") with true by reflexivity.
  repeat match goal with
         | |- (if (tok =? ?lit)%string then _ else _) = _ =>
             destruct (String.eqb_spec tok lit) as [->|_];
             [exfalso; apply H; simpl; tauto|]
         end.
  reflexivity.
Qed.

Lemma existsb_token tok :
  existsb (String.eqb tok) (map fst resolution_tokens) = true ->
  exists res, In (tok, res) resolution_tokens.
Proof.
  intros H. apply existsb_exists in H. destruct H as [t [Hin Heq]].
  apply String.eqb_eq in Heq. subst t.
  apply in_map_iff in Hin. destruct Hin as [[t res] [Ht Hin]].
  simpl in Ht. subst t. eauto.
Qed.

Lemma parse_accepted opts r :
  forallb accepted opts = true -> exists res, parse_options opts r = inl res.
Proof.
  revert r. induction opts as [|[opt optarg] rest IH]; intros r H.
  - simpl. eauto.
  - simpl in H. apply andb_true_iff in H. destruct H as [Ha Hrest].
    unfold accepted in Ha. simpl fst in Ha. simpl snd in Ha.
    apply andb_true_iff in Ha. destruct Ha as [Hopt Htok].
    apply Z.eqb_eq in Hopt. subst opt.
    destruct (existsb_token _ Htok) as [res Hin].
    rewrite (parse_token _ _ _ _ Hin). apply IH, Hrest.
Qed.

Lemma parse_rejected opts r :
  forallb accepted opts = false -> exists line, parse_options opts r = inr line.
Proof.
  revert r. induction opts as [|[opt optarg] rest IH]; intros r H.
  - discriminate.
  - simpl in H. apply andb_false_iff in H.
    destruct (accepted (opt, optarg)) eqn:Ha.
    + destruct H as [H|H]; [discriminate|].
      unfold accepted in Ha. simpl fst in Ha. simpl snd in Ha.
      apply andb_true_iff in Ha. destruct Ha as [Hopt Htok].
      apply Z.eqb_eq in Hopt. subst opt.
      destruct (existsb_token _ Htok) as [res Hin].
      rewrite (parse_token _ _ _ _ Hin). apply IH, H.
    + clear H IH. unfold accepted in Ha. simpl fst in Ha. simpl snd in Ha.
      destruct (opt =? chr "r") eqn:Hopt.
      * rewrite andb_true_l in Ha. apply Z.eqb_eq in Hopt. subst opt.
        rewrite (parse_other_value optarg rest r); [eauto|].
        intros Hin. apply Bool.not_true_iff_false in Ha. apply Ha.
        apply existsb_exists. exists optarg. split; [exact Hin|].
        apply String.eqb_refl.
      * cbn [parse_options]. rewrite Hopt.
        destruct (opt =? chr ":"); [eauto|].
        destruct (opt =? chr "?"); eauto.
Qed.

(** The switch of the option loop, on the results of [getopt_long]: the
    resolution option takes exactly the seven tokens, each selecting its
    resolution; any other value, the missing-argument result and the
    unrecognized-option result end option parsing with a diagnostic; a
    list of results is accepted exactly when each of them is; a rejected
    one makes [main] return [EXIT_FAILURE], which is not zero, after
    printing that diagnostic and nothing else; without options the
    resolution is 720p.  How [getopt_long] comes to its results is the
    matter of [parse_argv]. *)
Theorem resolution_option :
  (forall tok res rest r,
      In (tok, res) resolution_tokens ->
      parse_options ((chr "r", tok) :: rest) r = parse_options rest res) /\
  (forall tok rest r,
      ~ In tok (map fst resolution_tokens) ->
      parse_options ((chr "r", tok) :: rest) r = inr "Unsupported resolution.") /\
  (forall optarg rest r,
      parse_options ((chr ":", optarg) :: rest) r = inr "Missing argument." /\
      parse_options ((chr "?", optarg) :: rest) r = inr "Unrecognized option.") /\
  (forall opts r,
      if forallb accepted opts
      then exists res, parse_options opts r = inl res
      else exists line, parse_options opts r = inr line) /\
  (forall env opts line,
      parse_options opts 0 = inr line ->
      exists g, main env opts = Some (EXIT_FAILURE, g) /\
                trace g = [EMsg line]) /\
  EXIT_FAILURE <> 0 /\
  (forall env, main env [] = lifecycle env v720p).
Proof.
  split; [exact parse_token|].
  split; [exact parse_other_value|].
  split; [intros; split; reflexivity|].
  split.
  { intros opts r. destruct (forallb accepted opts) eqn:H.
    - apply parse_accepted, H.
    - apply parse_rejected, H. }
  split.
  { intros env opts line H. unfold main. rewrite H.
    eexists. split; reflexivity. }
  split; [discriminate|].
  reflexivity.
Qed.

(** ** A stop request before configuration *)

Section EarlyStop.

Variable env : Env.

Lemma acquire_configure : respects (keeps (occurrences is_configure)) (acquire env).
Proof. occ is_configure. Qed.

Lemma acquire_receive : respects (keeps (occurrences is_receive)) (acquire env).
Proof. occ is_receive. Qed.

Lemma acquire_reset : respects (keeps (occurrences is_reset)) (acquire env).
Proof. occ is_reset. Qed.

Lemma acquire_init_has_been_run : respects (keeps init_has_been_run) (acquire env).
Proof.
  unfold acquire.
  repeat first
    [ match goal with
      | |- respects _ (deliver ?l) =>
          intros g; rewrite deliver_spec; reflexivity
      end
    | frame_step (keeps_refl init_has_been_run) (@keeps_trans _ init_has_been_run)
    | progress unfold_flow ];
    reflexivity.
Qed.

Lemma clean_up_configure : respects (keeps (occurrences is_configure)) clean_up.
Proof. occ is_configure. Qed.

Lemma clean_up_receive : respects (keeps (occurrences is_receive)) clean_up.
Proof. occ is_receive. Qed.

Lemma clean_up_init_has_been_run : respects (keeps init_has_been_run) clean_up.
Proof. keeps_field init_has_been_run. Qed.

(** Without [init_has_been_run], [clean_up] sends no reset. *)
Lemma clean_up_no_reset g :
  init_has_been_run g = 0 ->
  occurrences is_reset (exec clean_up g) = occurrences is_reset g.
Proof.
  intros H. unfold occurrences, exec, clean_up, bind, read, remove_elgato,
    fprintf, call, act.
  destruct (devh g) as [h|]; simpl; rewrite ?H; simpl;
    destruct (libusb_ret g =? 0); simpl; rewrite ?count_snoc; simpl; lia.
Qed.

(** With the flag clear the capture loop leaves at its first test. *)
Lemma capture_loop_stopped sched g :
  is_running g = 0 ->
  capture_loop sched g =
  Some (match sched with [] => g | sigs :: _ => delivered sigs g end).
Proof.
  intros H. destruct sched as [|sigs rest]; simpl.
  - rewrite H. reflexivity.
  - unfold exec. rewrite deliver_spec. simpl. rewrite H.
    destruct (existsb stop_signal sigs); reflexivity.
Qed.

End EarlyStop.

(** C10: when set-up reaches the configuration block with the run flag
    already clear, [main] returns after a run in which no initialisation
    script was called, no payload was received, [init_has_been_run] is still
    0 and [clean_up] has sent no reset. *)
Theorem stop_before_configuration env opts res g0 :
  parse_options opts 0 = inl res ->
  acquire env initial = (true, g0) ->
  is_running g0 = 0 ->
  exists g,
    main env opts = Some (0, g) /\
    occurrences is_configure g = 0%nat /\
    occurrences is_receive g = 0%nat /\
    init_has_been_run g = 0 /\
    occurrences is_reset g = 0%nat.
Proof.
  intros Hparse Hacq Hstop.
  pose proof (acquire_configure env initial) as Hc.
  pose proof (acquire_receive env initial) as Hr.
  pose proof (acquire_reset env initial) as Hx.
  pose proof (acquire_init_has_been_run env initial) as Hi.
  unfold keeps in *. rewrite Hacq in *. simpl snd in *.
  unfold main, lifecycle, setup, configure_stage, bind, read.
  rewrite Hparse, Hacq, Hstop. simpl.
  rewrite (capture_loop_stopped _ g0 Hstop).
  set (g1 := match sig_loop env with [] => g0 | sigs :: _ => delivered sigs g0 end).
  assert (H1 : forall p, p (EMsg stop_notice) = false ->
                         occurrences p g1 = occurrences p g0).
  { intros p Hp. subst g1. destruct (sig_loop env) as [|sigs rest]; [reflexivity|].
    unfold occurrences, delivered. simpl.
    rewrite count_app, count_map_const by exact Hp. lia. }
  assert (H2 : init_has_been_run g1 = 0).
  { subst g1. destruct (sig_loop env); simpl; rewrite Hi; reflexivity. }
  eexists. split; [reflexivity|]. unfold exec.
  rewrite (clean_up_configure g1), (clean_up_receive g1),
    (clean_up_init_has_been_run g1).
  fold (exec clean_up g1). rewrite (clean_up_no_reset g1 H2).
  rewrite !H1 by reflexivity.
  rewrite Hc, Hr, Hx, H2. repeat split; reflexivity.
Qed.

Lemma stop_before_configuration_witness :
  exists g,
    main env_interrupted [(chr "r", "576i")] = Some (0, g) /\
    occurrences is_configure g = 0%nat /\
    occurrences is_receive g = 0%nat /\
    init_has_been_run g = 0 /\
    occurrences is_reset g = 0%nat.
Proof.
  apply (stop_before_configuration env_interrupted [(chr "r", "576i")] v576i
           (snd (acquire env_interrupted initial))); reflexivity.
Defined.

(** ** Device location *)

Ltac run_locate :=
  unfold init_dev_handler, try_open, libusb_open_device_with_vid_pid;
  repeat (unfold bind, ret, act, read, exec, fprintf, call, emit, set_devh,
            set_libusb_ret;
          cbn [fst snd negb is_null is_running libusb_ret fd_fifo
               init_has_been_run devh trace Z.eqb Pos.eqb]).

(** The result of [init_dev_handler] once libusb is up: the first supported
    candidate that matches is opened and probing stops there. *)
Lemma init_dev_handler_spec env g :
  libusb_init_result env = 0 ->
  let matches := present env ELGATO_VENDOR in
  let (r, g') := init_dev_handler env g in
  r = (match find matches supported with Some _ => 0 | None => 1 end) /\
  devh g' = option_map (fun pid => (ELGATO_VENDOR, pid)) (find matches candidates) /\
  trace g' =
    trace g ++ ELibusbInit :: map (EOpenDevice ELGATO_VENDOR) (tried matches candidates)
      ++ (match find matches supported with
          | Some _ => []
          | None => if matches GAME_CAPTURE_HD_PID_3
                    then [EMsg unsupported_notice] else []
          end).
Proof.
  intros Hinit. unfold candidates, supported. cbn [find tried]. cbv zeta.
  run_locate. rewrite Hinit. run_locate.
  destruct (present env ELGATO_VENDOR GAME_CAPTURE_HD_PID_0); run_locate;
    [rewrite <- !app_assoc; simpl; auto|].
  destruct (present env ELGATO_VENDOR GAME_CAPTURE_HD_PID_1); run_locate;
    [rewrite <- !app_assoc; simpl; auto|].
  destruct (present env ELGATO_VENDOR GAME_CAPTURE_HD_PID_2); run_locate;
    [rewrite <- !app_assoc; simpl; auto|].
  destruct (present env ELGATO_VENDOR GAME_CAPTURE_HD_PID_3); run_locate;
    rewrite <- !app_assoc; simpl; auto.
Qed.

Lemma clean_up_spec g : clean_up g = (tt, cleaned_up g).
Proof.
  unfold clean_up, cleaned_up, clean_up_events, remove_elgato, fprintf, call.
  unfold bind, ret, act, read, emit.
  destruct g as [run r fd init h t].
  destruct h as [h|]; cbn; [destruct (init =? 0); cbn|];
    destruct (r =? 0); cbn; rewrite <- ?app_assoc; reflexivity.
Qed.

(** C4, amended: once libusb is up, [init_dev_handler] probes the four
    identities in their fixed order and stops at the first that matches; it
    returns 0 with the handle of the first supported match, and 1 otherwise.
    When only the fourth identity matches it prints its own notice and keeps
    that handle in [devh], but its status is the same 1 as when nothing
    matches, and [main] reports "Unable to find device." in both cases. *)
Theorem locate_first_match env :
  libusb_init_result env = 0 ->
  let matches := present env ELGATO_VENDOR in
  (forall g,
      let (r, g') := init_dev_handler env g in
      r = (match find matches supported with Some _ => 0 | None => 1 end) /\
      devh g' = option_map (fun pid => (ELGATO_VENDOR, pid)) (find matches candidates) /\
      trace g' =
        trace g ++ ELibusbInit
          :: map (EOpenDevice ELGATO_VENDOR) (tried matches candidates)
          ++ (match find matches supported with
              | Some _ => []
              | None => if matches GAME_CAPTURE_HD_PID_3
                        then [EMsg unsupported_notice] else []
              end)) /\
  (find matches supported = None ->
   forall opts res,
     parse_options opts 0 = inl res ->
     fw_present env FW_MB86H57_H58_IDLE = true ->
     fw_present env FW_MB86H57_H58_ENC = true ->
     exists g, main env opts = Some (0, g) /\
               In (EMsg "Unable to find device.") (trace g)).
Proof.
  intros Hinit matches. split.
  - intros g. exact (init_dev_handler_spec env g Hinit).
  - intros Hnone opts res Hparse Hidle Henc.
    run. rewrite Hparse. run. rewrite Hidle. run. rewrite Henc. run.
    match goal with
    | |- context [init_dev_handler env ?g0] =>
        pose proof (init_dev_handler_spec env g0 Hinit) as Hspec;
        destruct (init_dev_handler env g0) as [r g']
    end.
    cbv zeta in Hspec. fold matches in Hspec. rewrite Hnone in Hspec.
    destruct Hspec as [-> _]. run.
    rewrite clean_up_spec. eexists. split; [reflexivity|].
    unfold cleaned_up. cbn [trace snd]. rewrite !in_app_iff. simpl. tauto.
Qed.

Lemma locate_first_match_witness :
  let matches := present env_unsupported ELGATO_VENDOR in
  (forall g,
      let (r, g') := init_dev_handler env_unsupported g in
      r = (match find matches supported with Some _ => 0 | None => 1 end) /\
      devh g' = option_map (fun pid => (ELGATO_VENDOR, pid)) (find matches candidates) /\
      trace g' =
        trace g ++ ELibusbInit
          :: map (EOpenDevice ELGATO_VENDOR) (tried matches candidates)
          ++ (match find matches supported with
              | Some _ => []
              | None => if matches GAME_CAPTURE_HD_PID_3
                        then [EMsg unsupported_notice] else []
              end)) /\
  (find matches supported = None ->
   forall opts res,
     parse_options opts 0 = inl res ->
     fw_present env_unsupported FW_MB86H57_H58_IDLE = true ->
     fw_present env_unsupported FW_MB86H57_H58_ENC = true ->
     exists g, main env_unsupported opts = Some (0, g) /\
               In (EMsg "Unable to find device.") (trace g)).
Proof. apply (locate_first_match env_unsupported). reflexivity. Defined.

(** The claim as stated fails: with only the unsupported revision attached
    the locator returns the very status it returns with no device at all,
    and the caller prints the not-found line. *)
Lemma unsupported_status_not_distinct :
  fst (init_dev_handler env_unsupported initial) =
  fst (init_dev_handler env_no_device initial) /\
  exists g, main env_unsupported [] = Some (0, g) /\
            In (EMsg "Unable to find device.") (trace g).
Proof.
  split; [reflexivity|].
  eexists. split; [reflexivity|]. vm_compute. tauto.
Qed.

(** ** Configuration *)

Section Configuration.

Variable env : Env.

(** The capture loop keeps every observation that neither the handler nor
    [receive_data] changes. *)
Lemma capture_loop_keeps {T} (f : globals -> T) sched g g' :
  (forall sigs g, f (delivered sigs g) = f g) ->
  (forall g, f (exec receive_data g) = f g) ->
  capture_loop sched g = Some g' -> f g' = f g.
Proof.
  intros Hd Hr. revert g. induction sched as [|sigs rest IH]; simpl; intros g H.
  - destruct (is_running g =? 0); [|discriminate]. injection H as <-. reflexivity.
  - assert (Hx : exec (deliver sigs) g = delivered sigs g)
      by (unfold exec; rewrite deliver_spec; reflexivity).
    rewrite Hx in H.
    destruct (_ =? 0) in H.
    + injection H as <-. apply Hd.
    + apply IH in H. rewrite H, Hr. apply Hd.
Qed.

(** What the run after set-up keeps of the state set-up left. *)
Lemma lifecycle_after_setup res rc g :
  lifecycle env res = Some (rc, g) ->
  occurrences is_configure g = occurrences is_configure (snd (setup env res initial)) /\
  init_has_been_run g = init_has_been_run (snd (setup env res initial)).
Proof.
  unfold lifecycle. destruct (setup env res initial) as [streaming g1]. simpl.
  intros H.
  assert (Hend : forall g2,
             occurrences is_configure (exec clean_up g2) = occurrences is_configure g2 /\
             init_has_been_run (exec clean_up g2) = init_has_been_run g2).
  { intros g2. split; [apply clean_up_configure | apply clean_up_init_has_been_run]. }
  destruct streaming.
  - destruct (capture_loop (sig_loop env) g1) as [g2|] eqn:Hloop; [|discriminate].
    injection H as _ <-. destruct (Hend g2) as [-> ->].
    split.
    + apply (capture_loop_occurrences _ _ _ _ eq_refl eq_refl Hloop).
    + apply (capture_loop_keeps init_has_been_run _ _ _
               (fun _ _ => eq_refl) (fun _ => eq_refl) Hloop).
  - injection H as _ <-. apply Hend.
Qed.

(** Set-up when the switch dispatches to the script [s]: the script is
    called exactly when the configuration block is reached with the run
    flag set, between its two diagnostic lines and before any transfer. *)
Lemma setup_configure res s :
  configure_switch env res = configure_dev env s ->
  let (ok, g0) := acquire env initial in
  let (streaming, g1) := setup env res initial in
  let reached := ok && negb (is_running g0 =? 0) in
  streaming = ok /\
  occurrences is_configure g0 = 0%nat /\
  occurrences is_receive g1 = 0%nat /\
  trace g1 =
    trace g0 ++ (if reached
                 then [EMsg "Running. Initializing device."; EConfigure s;
                       EMsg "Streaming data from device now."]
                 else []) /\
  occurrences is_configure g1 = (if reached then 1%nat else 0%nat) /\
  (init_has_been_run g1 <> 0 <-> reached = true /\ configure_succeeds env s = true).
Proof.
  intros Hswitch.
  pose proof (acquire_configure env initial) as Hc.
  pose proof (acquire_receive env initial) as Hr.
  pose proof (acquire_init_has_been_run env initial) as Hi.
  unfold keeps in *. unfold setup, bind.
  destruct (acquire env initial) as [ok g0]. simpl snd in *.
  change (occurrences is_configure initial) with 0%nat in Hc.
  change (occurrences is_receive initial) with 0%nat in Hr.
  change (init_has_been_run initial) with 0 in Hi.
  destruct ok; cbn [andb].
  - unfold configure_stage, bind, read. rewrite Hswitch.
    destruct (is_running g0 =? 0); cbn [negb].
    + cbn. rewrite app_nil_r, Hi. repeat split; auto; try tauto.
      intros [H _]. discriminate.
    + unfold configure_dev, fprintf, call, bind, act, ret.
      destruct (configure_succeeds env s); cbn -[count];
        unfold occurrences in *; cbn -[count]; rewrite <- ?app_assoc;
        cbn -[count]; rewrite ?count_app, ?Hc, ?Hr, ?Hi; cbn;
        repeat split; auto; try discriminate; try tauto.
      intros [_ H]. discriminate.
  - cbn. rewrite app_nil_r, Hi. repeat split; auto; try tauto.
    intros [H _]. discriminate.
Qed.

End Configuration.

(** C7: each of the seven tokens selects a resolution whose branch of the
    switch calls the initialisation script of that token (c1080i calls
    [configure_dev_component_1080i]).  Once set-up reaches the configuration
    block with the run flag set, that script is called exactly once, after
    "Running. Initializing device." and before any transfer, and never
    again up to the end of [main]; in every other run it is not called.
    [init_has_been_run] is non-zero afterwards exactly when the script was
    called and succeeded. *)
Theorem configurator_dispatch tok s :
  In (tok, s) token_scripts ->
  exists res,
    parse_options [(chr "r", tok)] 0 = inl res /\
    forall env,
      let (ok, g0) := acquire env initial in
      let (streaming, g1) := setup env res initial in
      let reached := ok && negb (is_running g0 =? 0) in
      streaming = ok /\
      occurrences is_configure g0 = 0%nat /\
      occurrences is_receive g1 = 0%nat /\
      trace g1 =
        trace g0 ++ (if reached
                     then [EMsg "Running. Initializing device."; EConfigure s;
                           EMsg "Streaming data from device now."]
                     else []) /\
      (init_has_been_run g1 <> 0 <->
       reached = true /\ configure_succeeds env s = true) /\
      (forall rc g,
          main env [(chr "r", tok)] = Some (rc, g) ->
          occurrences is_configure g = (if reached then 1%nat else 0%nat) /\
          (init_has_been_run g <> 0 <->
           reached = true /\ configure_succeeds env s = true)).
Proof.
  intros Hin.
  assert (Hres : exists res,
             parse_options [(chr "r", tok)] 0 = inl res /\
             forall env, configure_switch env res = configure_dev env s).
  { simpl in Hin.
    repeat (destruct Hin as [Hin|Hin];
            [injection Hin as <- <-; eexists; split; [reflexivity|];
             intros env; reflexivity|]).
    contradiction. }
  destruct Hres as [res [Hparse Hswitch]].
  exists res. split; [exact Hparse|]. intros env.
  pose proof (setup_configure env res s (Hswitch env)) as Hsetup.
  pose proof (lifecycle_after_setup env res) as Hafter.
  unfold main. rewrite Hparse.
  destruct (acquire env initial) as [ok g0].
  destruct (setup env res initial) as [streaming g1].
  cbv zeta in *. simpl snd in Hafter.
  destruct Hsetup as (H1 & H2 & H3 & H4 & H5 & H6).
  do 5 (split; [assumption|]).
  intros rc g Hmain. destruct (Hafter rc g Hmain) as [-> ->].
  split; assumption.
Qed.

Lemma configurator_dispatch_witness :
  exists res,
    parse_options [(chr "r", "c1080i")] 0 = inl res /\
    forall env,
      let (ok, g0) := acquire env initial in
      let (streaming, g1) := setup env res initial in
      let reached := ok && negb (is_running g0 =? 0) in
      streaming = ok /\
      occurrences is_configure g0 = 0%nat /\
      occurrences is_receive g1 = 0%nat /\
      trace g1 =
        trace g0 ++ (if reached
                     then [EMsg "Running. Initializing device.";
                           EConfigure configure_dev_component_1080i;
                           EMsg "Streaming data from device now."]
                     else []) /\
      (init_has_been_run g1 <> 0 <->
       reached = true /\
       configure_succeeds env configure_dev_component_1080i = true) /\
      (forall rc g,
          main env [(chr "r", "c1080i")] = Some (rc, g) ->
          occurrences is_configure g = (if reached then 1%nat else 0%nat) /\
          (init_has_been_run g <> 0 <->
           reached = true /\
           configure_succeeds env configure_dev_component_1080i = true)).
Proof.
  apply (configurator_dispatch "c1080i" configure_dev_component_1080i).
  simpl. tauto.
Defined.

(** ** Clean-up after streaming *)

Section AfterStreaming.

Variable env : Env.

Lemma init_dev_handler_success g r g' :
  init_dev_handler env g = (r, g') -> r = 0 ->
  devh g' <> None /\ libusb_ret g' = 0.
Proof.
  run_locate.
  destruct (libusb_init_result env =? 0) eqn:Hinit; run_locate.
  - apply Z.eqb_eq in Hinit.
    repeat match goal with
           | |- context [present env ELGATO_VENDOR ?pid] =>
               destruct (present env ELGATO_VENDOR pid); run_locate
           end;
      intros H Hr; injection H as <- <-;
      first [ discriminate Hr
            | cbn; split; [discriminate | exact Hinit] ].
  - intros H Hr. injection H as <- _. discriminate.
Qed.

Lemma get_interface_devh : respects (keeps devh) (get_interface env).
Proof. keeps_field devh. Qed.

Lemma get_interface_libusb_ret : respects (keeps libusb_ret) (get_interface env).
Proof. keeps_field libusb_ret. Qed.

(** When [acquire] lets control continue, the device is open and libusb is
    up. *)
Lemma acquire_success g0 :
  acquire env initial = (true, g0) -> devh g0 <> None /\ libusb_ret g0 = 0.
Proof.
  run.
  destruct (fw_present env FW_MB86H57_H58_IDLE); run; [|discriminate].
  destruct (fw_present env FW_MB86H57_H58_ENC); run; [|discriminate].
  match goal with
  | |- context [init_dev_handler env ?g] =>
      pose proof (init_dev_handler_success g) as Hloc;
      destruct (init_dev_handler env g) as [r gA]
  end.
  specialize (Hloc r gA eq_refl).
  destruct (r =? 0) eqn:Hr; run; [|discriminate].
  apply Z.eqb_eq in Hr. specialize (Hloc Hr).
  match goal with
  | |- context [get_interface env ?g] =>
      pose proof (get_interface_devh g) as Hd;
      pose proof (get_interface_libusb_ret g) as Hl;
      destruct (get_interface env g) as [r2 gB]
  end.
  unfold keeps in Hd, Hl. simpl in Hd, Hl.
  destruct (r2 =? 0); run; [|discriminate].
  intros H. injection H as <-. cbn. rewrite Hd, Hl. exact Hloc.
Qed.

Lemma configure_stage_devh res : respects (keeps devh) (configure_stage env res).
Proof. keeps_field devh. Qed.

Lemma configure_stage_libusb_ret res :
  respects (keeps libusb_ret) (configure_stage env res).
Proof. keeps_field libusb_ret. Qed.

Lemma setup_success res g1 :
  setup env res initial = (true, g1) -> devh g1 <> None /\ libusb_ret g1 = 0.
Proof.
  unfold setup, bind. pose proof (acquire_success) as Hacq.
  destruct (acquire env initial) as [ok g0]. destruct ok; [|discriminate].
  specialize (Hacq g0 eq_refl).
  pose proof (configure_stage_devh res g0) as Hd.
  pose proof (configure_stage_libusb_ret res g0) as Hl.
  unfold keeps in Hd, Hl.
  destruct (configure_stage env res g0) as [u g']. simpl in Hd, Hl.
  intros H. injection H as <-. rewrite Hd, Hl. exact Hacq.
Qed.

End AfterStreaming.

(** C3: after set-up has completed, the capture loop has stopped and the
    device was initialised, [main] ends with a [clean_up] whose calls are, in
    this order: the reset command, the release of the interface, the close
    of the device handle, the teardown of the USB context, then the close
    and the removal of the FIFO; no call of it comes after the release of a
    resource it needs. *)
Theorem clean_up_order env opts res g1 g2 :
  parse_options opts 0 = inl res ->
  setup env res initial = (true, g1) ->
  capture_loop (sig_loop env) g1 = Some g2 ->
  init_has_been_run g2 <> 0 ->
  let steps :=
    [ERemoveElgato; EMsg "Device has been reset.";
     EReleaseInterface INTERFACE_NUM; ELibusbClose; ELibusbExit;
     ECloseFd (fd_fifo g2); EUnlink fifo_path; EMsg "Terminating."] in
  exists g,
    main env opts = Some (0, g) /\
    trace g = trace g2 ++ steps /\
    no_use_after_release [] steps = true.
Proof.
  intros Hparse Hsetup Hloop Hinit steps.
  destruct (setup_success env res g1 Hsetup) as [Hdevh Hret].
  assert (Hdevh2 : devh g2 = devh g1)
    by (apply (capture_loop_keeps devh _ _ _ (fun _ _ => eq_refl)
                 (fun _ => eq_refl) Hloop)).
  assert (Hret2 : libusb_ret g2 = libusb_ret g1)
    by (apply (capture_loop_keeps libusb_ret _ _ _ (fun _ _ => eq_refl)
                 (fun _ => eq_refl) Hloop)).
  unfold main, lifecycle. rewrite Hparse, Hsetup, Hloop.
  eexists. split; [reflexivity|]. split; [|reflexivity].
  unfold exec. rewrite clean_up_spec. unfold cleaned_up, clean_up_events.
  cbn [snd trace]. rewrite Hdevh2, Hret2, Hret.
  destruct (devh g1) as [h|]; [|contradiction].
  apply Z.eqb_neq in Hinit. rewrite Hinit. reflexivity.
Qed.

Lemma clean_up_order_witness :
  let g2 := {| is_running := 0; libusb_ret := 0; fd_fifo := 3;
               init_has_been_run := 1;
               devh := Some (ELGATO_VENDOR, GAME_CAPTURE_HD_PID_1);
               trace := [EAccess FW_MB86H57_H58_IDLE; EAccess FW_MB86H57_H58_ENC;
                         ELibusbInit;
                         EOpenDevice ELGATO_VENDOR GAME_CAPTURE_HD_PID_0;
                         EOpenDevice ELGATO_VENDOR GAME_CAPTURE_HD_PID_1;
                         EKernelDriverActive INTERFACE_NUM;
                         EDetachKernelDriver INTERFACE_NUM;
                         ESetConfiguration CONFIGURATION;
                         EClaimInterface INTERFACE_NUM;
                         EMkfifo fifo_path;
                         EMsg "/tmp/elgato_gchd.ts has been created. Waiting for user to open it.";
                         EOpenFifo fifo_path;
                         EMsg "Running. Initializing device.";
                         EConfigure configure_dev_720p;
                         EMsg "Streaming data from device now.";
                         EReceiveData; EReceiveData; EReceiveData;
                         EMsg stop_notice] |} in
  let steps :=
    [ERemoveElgato; EMsg "Device has been reset.";
     EReleaseInterface INTERFACE_NUM; ELibusbClose; ELibusbExit;
     ECloseFd (fd_fifo g2); EUnlink fifo_path; EMsg "Terminating."] in
  exists g,
    main env_ok [] = Some (0, g) /\
    trace g = trace g2 ++ steps /\
    no_use_after_release [] steps = true.
Proof.
  intros g2.
  apply (clean_up_order env_ok [] 0 (snd (setup env_ok 0 initial)) g2).
  - reflexivity.
  - vm_compute. reflexivity.
  - vm_compute. reflexivity.
  - vm_compute. discriminate.
Defined.

(** ** What clean-up acts on *)

Section Guards.

Variable env : Env.

Lemma keeps_inv_refl g : keeps_inv env g g.
Proof. unfold keeps_inv. auto. Qed.

Lemma keeps_inv_trans a b c :
  keeps_inv env a b -> keeps_inv env b c -> keeps_inv env a c.
Proof. unfold keeps_inv. auto. Qed.

(** The invariant survives whatever leaves the two globals alone and only
    adds to the trace. *)
Lemma acquired_inv_grow g g' :
  libusb_ret g' = libusb_ret g -> devh g' = devh g ->
  incl (trace g) (trace g') ->
  acquired_inv env g -> acquired_inv env g'.
Proof.
  intros Hl Hd Hincl [H1 H2]. unfold acquired_inv. rewrite Hl, Hd. split.
  - intros H. destruct (H1 H) as [Hin Hr]. split; [apply Hincl, Hin | exact Hr].
  - intros h H. destruct (H2 h H) as [Hin Hp]. split; [apply Hincl, Hin | exact Hp].
Qed.

Lemma acquired_inv_emit e g : acquired_inv env g -> acquired_inv env (emit e g).
Proof.
  apply acquired_inv_grow; try reflexivity. simpl. apply incl_appl, incl_refl.
Qed.

Lemma acquired_inv_delivered sigs g :
  acquired_inv env g -> acquired_inv env (delivered sigs g).
Proof.
  apply acquired_inv_grow; try reflexivity. simpl. apply incl_appl, incl_refl.
Qed.

Ltac inv_leaf :=
  unfold keeps_inv; intros Hinv;
  first [ exact Hinv | apply acquired_inv_emit; exact Hinv ].

Lemma deliver_inv sigs : respects (keeps_inv env) (deliver sigs).
Proof.
  intros g. rewrite deliver_spec. simpl. exact (acquired_inv_delivered sigs g).
Qed.

Lemma init_dev_handler_inv : respects (keeps_inv env) (init_dev_handler env).
Proof.
  intros g _. unfold acquired_inv. run_locate.
  destruct (libusb_init_result env =? 0) eqn:Hinit; run_locate.
  - apply Z.eqb_eq in Hinit.
    repeat match goal with
           | |- context [if present env ELGATO_VENDOR ?pid then _ else _] =>
               destruct (present env ELGATO_VENDOR pid) eqn:?; run_locate
           end;
      (split;
       [ intros _; split; [rewrite !in_app_iff; simpl; tauto | exact Hinit]
       | intros h Hh;
         first [ discriminate Hh
               | injection Hh as <-; simpl;
                 split; [rewrite !in_app_iff; simpl; tauto | assumption] ] ]).
  - apply Z.eqb_neq in Hinit. split; [contradiction | discriminate].
Qed.

Lemma get_interface_inv : respects (keeps_inv env) (get_interface env).
Proof.
  unfold_flow. frame (keeps_inv_refl) (keeps_inv_trans); inv_leaf.
Qed.

Lemma clean_up_inv : respects (keeps_inv env) clean_up.
Proof.
  unfold_flow. frame (keeps_inv_refl) (keeps_inv_trans); inv_leaf.
Qed.

Lemma configure_stage_inv res : respects (keeps_inv env) (configure_stage env res).
Proof.
  unfold_flow. frame (keeps_inv_refl) (keeps_inv_trans); inv_leaf.
Qed.

Lemma acquire_inv : respects (keeps_inv env) (acquire env).
Proof.
  unfold acquire.
  repeat first
    [ apply deliver_inv
    | apply init_dev_handler_inv
    | apply get_interface_inv
    | frame_step (keeps_inv_refl) (keeps_inv_trans)
    | progress unfold fprintf, call ];
    inv_leaf.
Qed.

Lemma setup_inv res : respects (keeps_inv env) (setup env res).
Proof.
  unfold setup.
  repeat first
    [ apply acquire_inv
    | apply configure_stage_inv
    | frame_step (keeps_inv_refl) (keeps_inv_trans) ].
Qed.

Lemma capture_loop_inv sched g g' :
  capture_loop sched g = Some g' -> acquired_inv env g -> acquired_inv env g'.
Proof.
  revert g. induction sched as [|sigs rest IH]; simpl; intros g H Hinv.
  - destruct (is_running g =? 0); [|discriminate]. injection H as <-. exact Hinv.
  - assert (Hx : exec (deliver sigs) g = delivered sigs g)
      by (unfold exec; rewrite deliver_spec; reflexivity).
    rewrite Hx in H. apply (acquired_inv_delivered sigs) in Hinv.
    destruct (_ =? 0) in H.
    + injection H as <-. exact Hinv.
    + apply IH in H; [exact H|].
      unfold exec, receive_data, call, act. simpl.
      apply acquired_inv_emit, Hinv.
Qed.

Lemma acquire_teardown : respects (keeps (occurrences is_teardown)) (acquire env).
Proof. occ is_teardown. Qed.

Lemma configure_dev_teardown s :
  respects (keeps (occurrences is_teardown)) (configure_dev env s).
Proof. occ is_teardown. Qed.

Lemma setup_teardown res :
  0 <= res <= 6 -> respects (keeps (occurrences is_teardown)) (setup env res).
Proof.
  intros Hres. destruct (configure_switch_in_range env res Hres) as [s Hs].
  unfold setup, configure_stage. rewrite Hs.
  repeat first
    [ apply acquire_teardown
    | apply configure_dev_teardown
    | frame_step (keeps_refl (occurrences is_teardown))
        (@keeps_trans _ (occurrences is_teardown))
    | progress unfold fprintf ];
    occ_leaf.
Qed.

(** The globals from which the one [clean_up] of a run starts. *)
Lemma lifecycle_shape res rc g :
  0 <= res <= 6 ->
  lifecycle env res = Some (rc, g) ->
  exists g2, g = cleaned_up g2 /\ acquired_inv env g2 /\
             occurrences is_teardown g2 = 0%nat.
Proof.
  intros Hres. unfold lifecycle.
  pose proof (setup_inv res initial) as Hinv.
  pose proof (setup_teardown res Hres initial) as Htd.
  unfold keeps_inv, keeps in *.
  destruct (setup env res initial) as [streaming g1]. simpl in Hinv, Htd.
  assert (Hinit : acquired_inv env initial)
    by (split; [discriminate | discriminate]).
  specialize (Hinv Hinit).
  assert (Hend : forall g2, exec clean_up g2 = cleaned_up g2)
    by (intros g2; unfold exec; rewrite clean_up_spec; reflexivity).
  destruct streaming.
  - destruct (capture_loop (sig_loop env) g1) as [g2|] eqn:Hloop; [|discriminate].
    intros H. injection H as _ <-. exists g2.
    split; [apply Hend|]. split; [eapply capture_loop_inv; eauto|].
    rewrite (capture_loop_occurrences _ _ _ _ eq_refl eq_refl Hloop). exact Htd.
  - intros H. injection H as _ <-. exists g1.
    split; [apply Hend|]. split; [exact Hinv | exact Htd].
Qed.

End Guards.

(** C1, amended: in every run of [main] that ends past option parsing, the
    teardown of the USB context happens exactly when [libusb_init] had
    succeeded; the release of the interface and the close of the handle
    happen exactly when a device handle is open, which comes from a
    successful open of an attached device, whether or not the interface was
    claimed afterwards; the reset command is sent exactly when moreover
    [init_has_been_run] is set; the close of the FIFO descriptor and the
    removal of the FIFO happen in every run. *)
Theorem clean_up_guards env opts res rc g :
  parse_options opts 0 = inl res ->
  main env opts = Some (rc, g) ->
  (In ELibusbExit (trace g) <-> libusb_ret g = 0) /\
  (libusb_ret g = 0 -> In ELibusbInit (trace g) /\ libusb_init_result env = 0) /\
  (In (EReleaseInterface INTERFACE_NUM) (trace g) <-> devh g <> None) /\
  (In ELibusbClose (trace g) <-> devh g <> None) /\
  (forall h, devh g = Some h ->
             In (EOpenDevice (fst h) (snd h)) (trace g) /\
             present env (fst h) (snd h) = true) /\
  (In ERemoveElgato (trace g) <-> devh g <> None /\ init_has_been_run g <> 0) /\
  In (ECloseFd (fd_fifo g)) (trace g) /\
  In (EUnlink fifo_path) (trace g).
Proof.
  intros Hparse Hmain. unfold main in Hmain. rewrite Hparse in Hmain.
  assert (Hres : 0 <= res <= 6)
    by (eapply parse_options_range; [exact Hparse | lia]).
  destruct (lifecycle_shape env res rc g Hres Hmain) as (g2 & -> & Hinv & Htd).
  assert (Hold : forall e, is_teardown e = true -> ~ In e (trace g2))
    by (intros e He; apply (count_zero_not_In is_teardown); assumption).
  assert (Hinv' : acquired_inv env (cleaned_up g2)).
  { revert Hinv. apply acquired_inv_grow; try reflexivity.
    simpl. apply incl_appl, incl_refl. }
  destruct Hinv' as [Hret Hdev].
  pose proof (Hold ELibusbExit eq_refl) as N1.
  pose proof (Hold (EReleaseInterface INTERFACE_NUM) eq_refl) as N2.
  pose proof (Hold ELibusbClose eq_refl) as N3.
  pose proof (Hold ERemoveElgato eq_refl) as N4.
  split; [|split; [exact Hret|]]; [|split; [|split; [|split; [exact Hdev|]]]].
  all: clear Hret Hdev Hinv Hold Htd Hmain.
  all: unfold cleaned_up, clean_up_events;
    cbn [trace libusb_ret devh init_has_been_run fd_fifo].
  all: destruct (devh g2) as [h|]; cbn [is_null];
    destruct (Z.eqb_spec (init_has_been_run g2) 0) as [Hi|Hi];
    destruct (Z.eqb_spec (libusb_ret g2) 0) as [Hl|Hl];
    rewrite ?in_app_iff; simpl;
    intuition (try discriminate; try congruence).
Qed.

Lemma clean_up_guards_witness :
  let g := snd (match main env_claim_fails [] with
                | Some r => r
                | None => (0, initial)
                end) in
  (In ELibusbExit (trace g) <-> libusb_ret g = 0) /\
  (libusb_ret g = 0 ->
   In ELibusbInit (trace g) /\ libusb_init_result env_claim_fails = 0) /\
  (In (EReleaseInterface INTERFACE_NUM) (trace g) <-> devh g <> None) /\
  (In ELibusbClose (trace g) <-> devh g <> None) /\
  (forall h, devh g = Some h ->
             In (EOpenDevice (fst h) (snd h)) (trace g) /\
             present env_claim_fails (fst h) (snd h) = true) /\
  (In ERemoveElgato (trace g) <-> devh g <> None /\ init_has_been_run g <> 0) /\
  In (ECloseFd (fd_fifo g)) (trace g) /\
  In (EUnlink fifo_path) (trace g).
Proof.
  intros g. apply (clean_up_guards env_claim_fails [] 0 0 g).
  - reflexivity.
  - vm_compute. reflexivity.
Defined.

(** The claim as stated fails: when the claim of the interface is refused,
    [clean_up] still releases the interface, and it closes a descriptor and
    removes the FIFO although the FIFO was never created or opened. *)
Lemma clean_up_acts_on_unacquired :
  exists g, main env_claim_fails [] = Some (0, g) /\
            ~ acts_only_on_acquired env_claim_fails (trace g).
Proof.
  eexists. split; [vm_compute; reflexivity|].
  intros [Hrelease _].
  assert (H : claim_interface_result env_claim_fails = 0).
  { apply Hrelease. vm_compute. tauto. }
  discriminate H.
Qed.

(** * Further properties of the code *)

(** ** Interface acquisition *)

Lemma get_interface_spec env g :
  get_interface env g =
  (if (set_configuration_result env =? 0) && (claim_interface_result env =? 0)
   then 0 else 1,
   {| is_running := is_running g; libusb_ret := libusb_ret g;
      fd_fifo := fd_fifo g; init_has_been_run := init_has_been_run g;
      devh := devh g; trace := trace g ++ get_interface_events env |}).
Proof.
  unfold get_interface, get_interface_events, fprintf, call.
  unfold bind, ret, act, emit.
  destruct g as [run r fd init h t]. cbn.
  destruct (kernel_driver_active env =? 0); cbn;
    destruct (set_configuration_result env =? 0); cbn;
    try destruct (claim_interface_result env =? 0); cbn;
    rewrite <- ?app_assoc; reflexivity.
Qed.

(** X1: [get_interface] returns 0 exactly when both
    [libusb_set_configuration] and [libusb_claim_interface] return 0, and 1
    otherwise; it writes none of the globals. *)
Theorem get_interface_result env g :
  let (r, g') := get_interface env g in
  (r = 0 \/ r = 1) /\
  (r = 0 <->
   set_configuration_result env = 0 /\ claim_interface_result env = 0) /\
  is_running g' = is_running g /\ libusb_ret g' = libusb_ret g /\
  fd_fifo g' = fd_fifo g /\ init_has_been_run g' = init_has_been_run g /\
  devh g' = devh g.
Proof.
  rewrite get_interface_spec. cbn.
  destruct (Z.eqb_spec (set_configuration_result env) 0);
    destruct (Z.eqb_spec (claim_interface_result env) 0); cbn;
    repeat split; auto; try tauto; try discriminate; intros [? ?]; contradiction.
Qed.


(** ** Set-up in closed form *)

Lemma init_dev_handler_closed env g :
  init_dev_handler env g =
  (if located env then 0 else 1,
   {| is_running := is_running g;
      libusb_ret := libusb_init_result env;
      fd_fifo := fd_fifo g;
      init_has_been_run := init_has_been_run g;
      devh := if libusb_init_result env =? 0
              then option_map (fun pid => (ELGATO_VENDOR, pid))
                     (find (present env ELGATO_VENDOR) candidates)
              else None;
      trace := trace g ++ init_dev_handler_events env |}).
Proof.
  unfold located, init_dev_handler_events, candidates, supported.
  cbn [find tried existsb map].
  run_locate.
  destruct (libusb_init_result env =? 0) eqn:Hinit; run_locate.
  - destruct (present env ELGATO_VENDOR GAME_CAPTURE_HD_PID_0); run_locate;
      [cbn; rewrite <- ?app_assoc; reflexivity|].
    destruct (present env ELGATO_VENDOR GAME_CAPTURE_HD_PID_1); run_locate;
      [cbn; rewrite <- ?app_assoc; reflexivity|].
    destruct (present env ELGATO_VENDOR GAME_CAPTURE_HD_PID_2); run_locate;
      [cbn; rewrite <- ?app_assoc; reflexivity|].
    destruct (present env ELGATO_VENDOR GAME_CAPTURE_HD_PID_3); run_locate;
      cbn; rewrite <- ?app_assoc; reflexivity.
  - cbn. rewrite <- ?app_assoc. reflexivity.
Qed.

Ltac run_closed :=
  repeat (unfold bind, ret, act, read, exec, fprintf, call, delivered, emit,
            set_devh, set_libusb_ret, set_fd_fifo, set_init_has_been_run,
            set_is_running, initial;
          cbn [fst snd negb is_null is_running libusb_ret fd_fifo
               init_has_been_run devh trace app Z.eqb Pos.eqb andb];
          rewrite ?deliver_spec, ?init_dev_handler_closed, ?get_interface_spec).

Lemma acquire_closed env : acquire env initial = (setup_ok env, acquired env).
Proof.
  unfold acquire, acquired, acquire_events, acquire_signals, setup_ok,
    firmware_ok, notices.
  run_closed.
  destruct (fw_present env FW_MB86H57_H58_IDLE); run_closed;
    [|rewrite app_nil_r; rewrite <- ?app_assoc; reflexivity].
  destruct (fw_present env FW_MB86H57_H58_ENC); run_closed;
    [|rewrite app_nil_r; rewrite <- ?app_assoc; reflexivity].
  destruct (located env); run_closed;
    [|rewrite ?app_nil_r, ?existsb_app; rewrite <- ?app_assoc; cbn [app];
      repeat match goal with
             | |- context [existsb stop_signal ?l] => destruct (existsb stop_signal l)
             end; reflexivity].
  fold (claimed env).
  destruct (claimed env); run_closed;
    rewrite ?app_nil_r, ?existsb_app; rewrite <- ?app_assoc; cbn [app];
    repeat match goal with
           | |- context [existsb stop_signal ?l] => destruct (existsb stop_signal l)
           end; reflexivity.
Qed.

Lemma setup_closed env res :
  setup env res initial =
  if setup_ok env
  then (true, exec (configure_stage env res) (acquired env))
  else (false, acquired env).
Proof.
  unfold setup, bind. rewrite acquire_closed.
  destruct (setup_ok env); [|reflexivity].
  unfold exec. destruct (configure_stage env res (acquired env)). reflexivity.
Qed.

(** A run whose set-up fails ends with the clean-up of what [acquire]
    left. *)
Lemma main_failed env opts res :
  parse_options opts 0 = inl res -> setup_ok env = false ->
  main env opts = Some (0, cleaned_up (acquired env)).
Proof.
  intros Hparse Hok. unfold main, lifecycle.
  rewrite Hparse, setup_closed, Hok. unfold exec. rewrite clean_up_spec.
  reflexivity.
Qed.

Lemma count_cons p e t :
  count p (e :: t) = ((if p e then 1 else 0) + count p t)%nat.
Proof. unfold count. simpl. destruct (p e); reflexivity. Qed.

Lemma count_map_zero {A} p (f : A -> event) l :
  (forall a, p (f a) = false) -> count p (map f l) = 0%nat.
Proof.
  intros H. unfold count. induction l as [|a l IH]; simpl; [reflexivity|].
  rewrite H. exact IH.
Qed.

Lemma count_nil p : count p [] = 0%nat.
Proof. reflexivity. Qed.

Lemma lines_app t1 t2 : lines (t1 ++ t2) = lines t1 ++ lines t2.
Proof. unfold lines. apply flat_map_app. Qed.

Lemma lines_cons e t : lines (e :: t) = event_lines e ++ lines t.
Proof. reflexivity. Qed.

Lemma lines_nil : lines [] = [].
Proof. reflexivity. Qed.

Lemma lines_notices sigs : lines (notices sigs) = [].
Proof.
  unfold notices. induction (filter stop_signal sigs) as [|s l IH];
    [reflexivity | exact IH].
Qed.

Ltac eval_lines :=
  repeat first [ rewrite lines_app | rewrite lines_cons
               | rewrite lines_notices | rewrite lines_nil ];
  cbn; reflexivity.

(** ** Runs that fail during set-up *)

(** X3: every run whose set-up fails ends, returns 0, and prints the lines
    of the stage that failed followed by "Terminating.": one line for
    missing firmware or a missing device, the locator's or the acquirer's
    own line followed by the line of [main] in the other cases; the reset
    line is never printed. *)
Theorem failure_diagnostics env opts res :
  parse_options opts 0 = inl res ->
  setup_ok env = false ->
  exists g,
    main env opts = Some (0, g) /\
    lines (trace g) = failure_lines env ++ ["Terminating."].
Proof.
  intros Hparse Hok. rewrite (main_failed env opts res Hparse Hok).
  eexists. split; [reflexivity|].
  revert Hok.
  unfold cleaned_up, clean_up_events, acquired, acquire_events,
    init_dev_handler_events, get_interface_events, failure_lines, setup_ok,
    located, claimed, firmware_ok, supported, candidates.
  cbn [trace devh libusb_ret init_has_been_run fd_fifo existsb tried find].
  destruct (fw_present env FW_MB86H57_H58_IDLE);
    destruct (fw_present env FW_MB86H57_H58_ENC);
    cbn [andb negb]; try (intros _; eval_lines).
  destruct (libusb_init_result env =? 0); cbn [andb negb];
    try (intros _; eval_lines).
  destruct (present env ELGATO_VENDOR GAME_CAPTURE_HD_PID_0);
    [|destruct (present env ELGATO_VENDOR GAME_CAPTURE_HD_PID_1);
      [|destruct (present env ELGATO_VENDOR GAME_CAPTURE_HD_PID_2);
        [|destruct (present env ELGATO_VENDOR GAME_CAPTURE_HD_PID_3)]]];
    cbn [andb orb negb option_map is_null map app];
    try (intros _; eval_lines).
  all: destruct (kernel_driver_active env =? 0);
    destruct (set_configuration_result env =? 0);
    destruct (claim_interface_result env =? 0);
    cbn [andb orb negb option_map is_null map app];
    try discriminate; intros _; eval_lines.
Qed.

Lemma failure_diagnostics_witness :
  exists g,
    main env_claim_fails [] = Some (0, g) /\
    lines (trace g) = failure_lines env_claim_fails ++ ["Terminating."].
Proof.
  apply (failure_diagnostics env_claim_fails [] 0); reflexivity.
Defined.

Lemma count_notices p sigs :
  p (EMsg stop_notice) = false -> count p (notices sigs) = 0%nat.
Proof. apply count_map_const. Qed.

Ltac unfold_closed :=
  unfold cleaned_up, clean_up_events, acquired, acquire_events,
    acquire_signals, init_dev_handler_events, get_interface_events,
    failure_lines, setup_ok, handle_opened, located, claimed, firmware_ok,
    supported, candidates;
  cbn [trace devh libusb_ret init_has_been_run fd_fifo is_running existsb
       tried find].

Ltac eval_count :=
  repeat first
    [ rewrite count_app | rewrite count_cons | rewrite count_nil
    | rewrite count_notices by reflexivity
    | rewrite count_map_zero by (intros; reflexivity) ];
  cbn; try reflexivity; try lia.

(** Goes through the answers of the outside world in the order in which
    [main] asks for them, trying [tac] as soon as they decide the goal. *)
Ltac env_cases env tac :=
  destruct (fw_present env FW_MB86H57_H58_IDLE) eqn:?;
    [destruct (fw_present env FW_MB86H57_H58_ENC) eqn:?|];
    cbn [andb orb negb]; try solve [tac];
  destruct (libusb_init_result env =? 0) eqn:?;
    cbn [andb orb negb option_map is_null map app]; try solve [tac];
  (destruct (present env ELGATO_VENDOR GAME_CAPTURE_HD_PID_0) eqn:?;
    [|destruct (present env ELGATO_VENDOR GAME_CAPTURE_HD_PID_1) eqn:?;
      [|destruct (present env ELGATO_VENDOR GAME_CAPTURE_HD_PID_2) eqn:?;
        [|destruct (present env ELGATO_VENDOR GAME_CAPTURE_HD_PID_3) eqn:?]]]);
    cbn [andb orb negb option_map is_null map app]; try solve [tac];
  destruct (kernel_driver_active env =? 0) eqn:?;
    destruct (set_configuration_result env =? 0) eqn:?;
    destruct (claim_interface_result env =? 0) eqn:?;
    cbn [andb orb negb option_map is_null map app]; tac.

(** ** The sink *)

(** X4: [acquire] lets [main] continue exactly when both firmware files
    exist, libusb comes up, a supported device is attached, and the
    configuration and the claim succeed.  The FIFO is created and opened
    exactly then, once, and whatever [open] returns is stored in [fd_fifo]
    unchecked; on every other path [fd_fifo] keeps its initial 0. *)
Theorem sink_created_after_claim env :
  let (ok, g0) := acquire env initial in
  ok = setup_ok env /\
  count is_mkfifo (trace g0) = (if setup_ok env then 1%nat else 0%nat) /\
  count is_open_fifo (trace g0) = (if setup_ok env then 1%nat else 0%nat) /\
  fd_fifo g0 = (if setup_ok env then open_result env else 0).
Proof.
  rewrite acquire_closed. split; [reflexivity|].
  split; [|split; [|reflexivity]].
  - unfold_closed. env_cases env eval_count.
  - unfold_closed. env_cases env eval_count.
Qed.

(** X5: when [libusb_init] fails, [init_dev_handler] returns 1 with [devh]
    NULL after its one diagnostic line, without trying to open any device;
    the run of [main] then makes no other call to libusb or the device, in
    set-up or in clean-up. *)
Theorem libusb_init_failure env opts res :
  parse_options opts 0 = inl res ->
  firmware_ok env = true ->
  libusb_init_result env <> 0 ->
  (forall g0,
      let (r, g') := init_dev_handler env g0 in
      r = 1 /\ devh g' = None /\ libusb_ret g' = libusb_init_result env /\
      trace g' = trace g0 ++ [ELibusbInit; EMsg "Error initializing libusb."]) /\
  exists g,
    main env opts = Some (0, g) /\
    filter is_device_access (trace g) = [ELibusbInit].
Proof.
  intros Hparse Hfw Hinit. apply Z.eqb_neq in Hinit. split.
  - intros g0. rewrite init_dev_handler_closed.
    unfold located, init_dev_handler_events. rewrite Hinit. cbn. auto.
  - assert (Hok : setup_ok env = false).
    { unfold setup_ok, located. rewrite Hfw, Hinit. reflexivity. }
    rewrite (main_failed env opts res Hparse Hok).
    eexists. split; [reflexivity|].
    unfold_closed. unfold firmware_ok in Hfw. rewrite Hfw, Hinit.
    apply andb_true_iff in Hfw. destruct Hfw as [-> _].
    cbn [andb is_null Z.eqb trace].
    assert (Hn : forall l : list Z, filter is_device_access (notices l) = []).
    { intros l. unfold notices.
      induction (filter stop_signal l) as [|a l' IH]; [reflexivity | exact IH]. }
    repeat (repeat first [ rewrite filter_app | rewrite Hn ]; cbn).
    reflexivity.
Qed.

Lemma libusb_init_failure_witness :
  (forall g0,
      let (r, g') := init_dev_handler
                       {| fw_present := fun _ => true; libusb_init_result := -99;
                          usb_devices := []; kernel_driver_active := 0;
                          set_configuration_result := 0;
                          claim_interface_result := 0; open_result := 3;
                          configure_succeeds := fun _ => true;
                          sig_at := no_signal; sig_loop := [] |} g0 in
      r = 1 /\ devh g' = None /\ libusb_ret g' = -99 /\
      trace g' = trace g0 ++ [ELibusbInit; EMsg "Error initializing libusb."]) /\
  exists g,
    main {| fw_present := fun _ => true; libusb_init_result := -99;
            usb_devices := []; kernel_driver_active := 0;
            set_configuration_result := 0;
            claim_interface_result := 0; open_result := 3;
            configure_succeeds := fun _ => true;
            sig_at := no_signal; sig_loop := [] |} [] = Some (0, g) /\
    filter is_device_access (trace g) = [ELibusbInit].
Proof.
  apply (libusb_init_failure
           {| fw_present := fun _ => true; libusb_init_result := -99;
              usb_devices := []; kernel_driver_active := 0;
              set_configuration_result := 0;
              claim_interface_result := 0; open_result := 3;
              configure_succeeds := fun _ => true;
              sig_at := no_signal; sig_loop := [] |} [] 0).
  - reflexivity.
  - reflexivity.
  - simpl. lia.
Defined.

(** ** What every ending run gives back *)

Section Teardown.

Variable env : Env.

Lemma acquire_clean_up_event :
  respects (keeps (occurrences is_clean_up_event)) (acquire env).
Proof. occ is_clean_up_event. Qed.

Lemma configure_dev_clean_up_event s :
  respects (keeps (occurrences is_clean_up_event)) (configure_dev env s).
Proof. occ is_clean_up_event. Qed.

Lemma setup_clean_up_event res :
  0 <= res <= 6 ->
  respects (keeps (occurrences is_clean_up_event)) (setup env res).
Proof.
  intros Hres. destruct (configure_switch_in_range env res Hres) as [s Hs].
  unfold setup, configure_stage. rewrite Hs.
  repeat first
    [ apply acquire_clean_up_event
    | apply configure_dev_clean_up_event
    | frame_step (keeps_refl (occurrences is_clean_up_event))
        (@keeps_trans _ (occurrences is_clean_up_event))
    | progress unfold fprintf ];
    occ_leaf.
Qed.

Lemma configure_stage_fd_fifo res :
  respects (keeps fd_fifo) (configure_stage env res).
Proof. keeps_field fd_fifo. Qed.

(** The globals from which the one [clean_up] of an ending run starts:
    nothing of clean-up has happened yet, and the three globals it tests
    are as [acquire] left them. *)
Lemma lifecycle_closed res rc g :
  0 <= res <= 6 ->
  lifecycle env res = Some (rc, g) ->
  exists g2,
    g = cleaned_up g2 /\ rc = 0 /\
    occurrences is_clean_up_event g2 = 0%nat /\
    libusb_ret g2 = libusb_ret (acquired env) /\
    devh g2 = devh (acquired env) /\
    fd_fifo g2 = fd_fifo (acquired env).
Proof.
  intros Hres. unfold lifecycle.
  pose proof (setup_clean_up_event res Hres initial) as Hc.
  unfold keeps in Hc. rewrite setup_closed in *.
  assert (Hend : forall g2, exec clean_up g2 = cleaned_up g2)
    by (intros g2; unfold exec; rewrite clean_up_spec; reflexivity).
  destruct (setup_ok env).
  - simpl snd in Hc.
    pose proof (configure_stage_devh env res (acquired env)) as Hd.
    pose proof (configure_stage_libusb_ret env res (acquired env)) as Hl.
    pose proof (configure_stage_fd_fifo res (acquired env)) as Hf.
    unfold keeps in Hd, Hl, Hf.
    fold (exec (configure_stage env res) (acquired env)) in Hd, Hl, Hf.
    set (g1 := exec (configure_stage env res) (acquired env)) in *.
    destruct (capture_loop (sig_loop env) g1) as [g2|] eqn:Hloop; [|discriminate].
    intros H. injection H as <- <-. exists g2.
    split; [apply Hend|]. split; [reflexivity|].
    split.
    { rewrite (capture_loop_occurrences _ _ _ _ eq_refl eq_refl Hloop). exact Hc. }
    rewrite <- Hl, <- Hd, <- Hf.
    repeat split;
      apply (fun f Hd' Hr' => capture_loop_keeps f _ _ _ Hd' Hr' Hloop);
      reflexivity.
  - intros H. injection H as <- <-. exists (acquired env).
    split; [apply Hend|]. repeat split. exact Hc.
Qed.

Lemma count_subpredicate (p q : event -> bool) t :
  (forall e, p e = true -> q e = true) -> count q t = 0%nat -> count p t = 0%nat.
Proof.
  intros Hpq. unfold count. induction t as [|e t IH]; simpl; [reflexivity|].
  destruct (p e) eqn:Hp.
  - rewrite (Hpq e Hp). discriminate.
  - destruct (q e); [discriminate | exact IH].
Qed.

Lemma filter_count_zero (p : event -> bool) t :
  count p t = 0%nat -> filter p t = [].
Proof. unfold count. destruct (filter p t); [reflexivity | discriminate]. Qed.

End Teardown.

(** X6: every run of [main] that ends past option parsing calls [close]
    exactly once and [unlink] exactly once.  The descriptor closed is what
    [open] returned when the FIFO was opened, whatever that was, and 0 on
    every path that ends before the FIFO is opened. *)
Theorem sink_teardown env opts res rc g :
  parse_options opts 0 = inl res ->
  main env opts = Some (rc, g) ->
  filter is_close_fd (trace g) =
    [ECloseFd (if setup_ok env then open_result env else 0)] /\
  filter is_unlink (trace g) = [EUnlink fifo_path].
Proof.
  intros Hparse Hmain. unfold main in Hmain. rewrite Hparse in Hmain.
  assert (Hres : 0 <= res <= 6)
    by (eapply parse_options_range; [exact Hparse | lia]).
  destruct (lifecycle_closed env res rc g Hres Hmain)
    as (g2 & -> & _ & Hzero & _ & _ & Hfd).
  unfold occurrences in Hzero.
  assert (H1 : filter is_close_fd (trace g2) = []).
  { apply filter_count_zero, (count_subpredicate _ is_clean_up_event); auto.
    intros [] H; try discriminate; reflexivity. }
  assert (H2 : filter is_unlink (trace g2) = []).
  { apply filter_count_zero, (count_subpredicate _ is_clean_up_event); auto.
    intros [] H; try discriminate; reflexivity. }
  unfold cleaned_up, clean_up_events. cbn [trace].
  rewrite !filter_app, H1, H2, Hfd.
  destruct (is_null (devh g2)); destruct (init_has_been_run g2 =? 0);
    destruct (libusb_ret g2 =? 0); split; reflexivity.
Qed.

Lemma sink_teardown_witness :
  filter is_close_fd
    (trace (snd (match main env_no_firmware [] with
                 | Some r => r | None => (0, initial) end))) =
    [ECloseFd (if setup_ok env_no_firmware then open_result env_no_firmware else 0)] /\
  filter is_unlink
    (trace (snd (match main env_no_firmware [] with
                 | Some r => r | None => (0, initial) end))) =
    [EUnlink fifo_path].
Proof.
  apply (sink_teardown env_no_firmware [] 0 0).
  - reflexivity.
  - vm_compute. reflexivity.
Defined.

Lemma is_null_find {A} (f : Z -> A) p l :
  match option_map f (find p l) with Some _ => false | None => true end =
  negb (existsb p l).
Proof.
  induction l as [|a l IH]; simpl; [reflexivity|].
  destruct (p a); simpl; [reflexivity | exact IH].
Qed.

(** X7: every run of [main] that ends past option parsing calls
    [libusb_exit] exactly once if [libusb_init] was reached and succeeded
    and never otherwise, and calls [libusb_release_interface] and
    [libusb_close] exactly once each if one of the four identities was
    opened and never otherwise: what was acquired is given back once. *)
Theorem usb_teardown_balance env opts res rc g :
  parse_options opts 0 = inl res ->
  main env opts = Some (rc, g) ->
  count is_libusb_exit (trace g) =
    (if firmware_ok env && (libusb_init_result env =? 0) then 1%nat else 0%nat) /\
  count is_libusb_close (trace g) = (if handle_opened env then 1%nat else 0%nat) /\
  count is_release (trace g) = (if handle_opened env then 1%nat else 0%nat).
Proof.
  intros Hparse Hmain. unfold main in Hmain. rewrite Hparse in Hmain.
  assert (Hres : 0 <= res <= 6)
    by (eapply parse_options_range; [exact Hparse | lia]).
  destruct (lifecycle_closed env res rc g Hres Hmain)
    as (g2 & -> & _ & Hzero & Hret & Hdevh & _).
  unfold occurrences in Hzero.
  assert (Hsub : forall p, (forall e, p e = true -> is_clean_up_event e = true) ->
                           count p (trace g2) = 0%nat)
    by (intros p Hp; apply (count_subpredicate _ is_clean_up_event); auto).
  assert (H1 : count is_libusb_exit (trace g2) = 0%nat)
    by (apply Hsub; intros [] H; try discriminate; reflexivity).
  assert (H2 : count is_libusb_close (trace g2) = 0%nat)
    by (apply Hsub; intros [] H; try discriminate; reflexivity).
  assert (H3 : count is_release (trace g2) = 0%nat)
    by (apply Hsub; intros [] H; try discriminate; reflexivity).
  clear Hsub Hzero.
  assert (Hnull : is_null (devh g2) = negb (handle_opened env)).
  { rewrite Hdevh. unfold acquired, handle_opened. cbn [devh].
    destruct (firmware_ok env && (libusb_init_result env =? 0)); [|reflexivity].
    unfold is_null. rewrite is_null_find. reflexivity. }
  assert (Hexit : (libusb_ret g2 =? 0) =
                  firmware_ok env && (libusb_init_result env =? 0)).
  { rewrite Hret. unfold acquired. cbn [libusb_ret].
    destruct (firmware_ok env); reflexivity. }
  unfold cleaned_up, clean_up_events. cbn [trace].
  rewrite !count_app, H1, H2, H3, Hnull, Hexit.
  destruct (handle_opened env); destruct (init_has_been_run g2 =? 0);
    destruct (firmware_ok env && (libusb_init_result env =? 0));
    repeat split; reflexivity.
Qed.

Lemma usb_teardown_balance_witness :
  let g := snd (match main env_unsupported [] with
                | Some r => r | None => (0, initial) end) in
  count is_libusb_exit (trace g) =
    (if firmware_ok env_unsupported && (libusb_init_result env_unsupported =? 0)
     then 1%nat else 0%nat) /\
  count is_libusb_close (trace g) =
    (if handle_opened env_unsupported then 1%nat else 0%nat) /\
  count is_release (trace g) =
    (if handle_opened env_unsupported then 1%nat else 0%nat).
Proof.
  intros g. apply (usb_teardown_balance env_unsupported [] 0 0).
  - reflexivity.
  - vm_compute. reflexivity.
Defined.

(** ** The capture loop and termination *)

Lemma exec_deliver sigs g : exec (deliver sigs) g = delivered sigs g.
Proof. unfold exec. rewrite deliver_spec. reflexivity. Qed.

(** The capture loop up to the window in which the first stop signal
    arrives. *)
Lemma capture_loop_until_stop pre sigs rest g :
  is_running g <> 0 ->
  existsb stop_signal (List.concat pre) = false ->
  existsb stop_signal sigs = true ->
  exists g',
    capture_loop (pre ++ sigs :: rest) g = Some g' /\
    trace g' =
      trace g ++ flat_map (fun w => notices w ++ [EReceiveData]) pre
        ++ notices sigs /\
    occurrences is_receive g' = (occurrences is_receive g + List.length pre)%nat /\
    is_running g' = 0.
Proof.
  intros Hrun Hpre Hstop. revert g Hrun.
  induction pre as [|w pre IH]; intros g Hrun; cbn [app capture_loop].
  - rewrite exec_deliver. unfold delivered at 1. cbn [is_running].
    rewrite Hstop. cbn [Z.eqb]. eexists. split; [reflexivity|].
    unfold occurrences, delivered, notices. cbn [trace is_running flat_map app].
    rewrite Hstop. split; [reflexivity|]. split; [|reflexivity].
    rewrite count_app, count_map_const by reflexivity. cbn. lia.
  - cbn [List.concat] in Hpre. rewrite existsb_app in Hpre.
    apply orb_false_iff in Hpre. destruct Hpre as [Hw Hpre].
    rewrite exec_deliver. unfold delivered at 1. cbn [is_running]. rewrite Hw.
    apply Z.eqb_neq in Hrun. rewrite Hrun. apply Z.eqb_neq in Hrun.
    destruct (IH Hpre (exec receive_data (delivered w g))) as (g' & H1 & H2 & H3 & H4).
    { cbn. rewrite Hw. exact Hrun. }
    exists g'. split; [exact H1|]. split; [|split; [|exact H4]].
    + rewrite H2. unfold exec, receive_data, call, act, emit, delivered, notices.
      cbn [snd trace flat_map]. rewrite <- !app_assoc. reflexivity.
    + rewrite H3. unfold occurrences, exec, receive_data, call, act, emit, delivered.
      cbn [snd trace length].
      rewrite !count_app, count_map_const by reflexivity. cbn. lia.
Qed.

Lemma notices_none sigs : existsb stop_signal sigs = false -> notices sigs = [].
Proof.
  unfold notices. induction sigs as [|s l IH]; [reflexivity|].
  cbn. intros H. apply orb_false_iff in H. destruct H as [-> H]. exact (IH H).
Qed.

Lemma transfers_without_stop pre :
  existsb stop_signal (List.concat pre) = false ->
  flat_map (fun w => notices w ++ [EReceiveData]) pre =
  repeat EReceiveData (List.length pre).
Proof.
  induction pre as [|w pre IH]; [reflexivity|].
  cbn. rewrite existsb_app. intros H. apply orb_false_iff in H.
  destruct H as [Hw H]. rewrite (notices_none w Hw), (IH H). reflexivity.
Qed.

(** X8: started with the run flag set and given only signals whose
    disposition [main] sets (SIGINT, SIGTERM, SIGPIPE), the capture loop
    makes one transfer for every test of the flag before the first SIGINT
    or SIGTERM and none after it: with that signal arriving in the window
    after [pre], the loop adds exactly [length pre] calls of [receive_data]
    to the trace, then one notice of the handler for each SIGINT or SIGTERM
    of that window, and ends with the flag clear, whatever would have
    arrived later.  A SIGPIPE leaves no mark. *)
Theorem capture_loop_transfers pre sigs rest g :
  forallb (forallb disposed) (pre ++ [sigs]) = true ->
  is_running g <> 0 ->
  existsb stop_signal (List.concat pre) = false ->
  existsb stop_signal sigs = true ->
  exists g',
    capture_loop (pre ++ sigs :: rest) g = Some g' /\
    trace g' =
      trace g ++ repeat EReceiveData (List.length pre) ++ notices sigs /\
    occurrences is_receive g' = (occurrences is_receive g + List.length pre)%nat /\
    is_running g' = 0.
Proof.
  intros _ Hrun Hpre Hsigs.
  destruct (capture_loop_until_stop pre sigs rest g Hrun Hpre Hsigs)
    as (g' & H1 & H2 & H3 & H4).
  exists g'. rewrite <- (transfers_without_stop pre Hpre). auto.
Qed.

Lemma capture_loop_transfers_witness :
  exists g',
    capture_loop ([[]; [SIGPIPE]; []] ++ [SIGPIPE; SIGTERM; SIGINT] :: [[SIGINT]])
                 initial = Some g' /\
    trace g' =
      trace initial ++ repeat EReceiveData (List.length [[]; [SIGPIPE]; []])
        ++ notices [SIGPIPE; SIGTERM; SIGINT] /\
    occurrences is_receive g' =
      (occurrences is_receive initial + List.length [[]; [SIGPIPE]; []])%nat /\
    is_running g' = 0.
Proof.
  apply (capture_loop_transfers [[]; [SIGPIPE]; []] [SIGPIPE; SIGTERM; SIGINT]
           [[SIGINT]] initial).
  - reflexivity.
  - simpl. lia.
  - reflexivity.
  - reflexivity.
Defined.

Lemma capture_loop_diverges sched g :
  is_running g <> 0 ->
  existsb stop_signal (List.concat sched) = false ->
  capture_loop sched g = None.
Proof.
  revert g. induction sched as [|w sched IH]; intros g Hrun Hno; cbn.
  - apply Z.eqb_neq in Hrun. rewrite Hrun. reflexivity.
  - cbn in Hno. rewrite existsb_app in Hno.
    apply orb_false_iff in Hno. destruct Hno as [Hw Hno].
    rewrite exec_deliver. unfold delivered at 1. cbn [is_running]. rewrite Hw.
    apply Z.eqb_neq in Hrun. rewrite Hrun. apply Z.eqb_neq in Hrun.
    apply IH; [|exact Hno]. cbn. rewrite Hw. exact Hrun.
Qed.

Lemma acquire_signals_ok env :
  setup_ok env = true -> acquire_signals env = setup_signals env.
Proof.
  unfold setup_ok, acquire_signals, setup_signals. intros H.
  apply andb_true_iff in H. destruct H as [H Hc].
  apply andb_true_iff in H. destruct H as [Hf Hl].
  rewrite Hf, Hl, Hc. reflexivity.
Qed.

(** When the open of the FIFO returns, [main] fails to return exactly when
    no stop signal ever arrives after a successful set-up. *)
Lemma main_never_returns env opts :
  main env opts = None <->
  exists res,
    parse_options opts 0 = inl res /\
    setup_ok env = true /\
    existsb stop_signal (setup_signals env) = false /\
    existsb stop_signal (List.concat (sig_loop env)) = false.
Proof.
  unfold main, lifecycle.
  destruct (parse_options opts 0) as [res|line] eqn:Hparse.
  - rewrite setup_closed.
    pose proof (configure_stage_keeps_running env res (acquired env)) as Hk.
    unfold keeps in Hk.
    fold (exec (configure_stage env res) (acquired env)) in Hk.
    assert (Hflag : setup_ok env = true ->
                    is_running (acquired env) =
                    if existsb stop_signal (setup_signals env) then 0 else 1).
    { intros Hok. unfold acquired. cbn [is_running].
      rewrite (acquire_signals_ok env Hok). reflexivity. }
    destruct (setup_ok env) eqn:Hok.
    + specialize (Hflag eq_refl). split.
      * intros H.
        destruct (capture_loop (sig_loop env) _) eqn:Hloop in H; [discriminate|].
        apply capture_loop_None in Hloop. destruct Hloop as [Hrun Hno].
        rewrite Hk, Hflag in Hrun.
        exists res. repeat split; auto.
        destruct (existsb stop_signal (setup_signals env)); [contradiction|reflexivity].
      * intros (res' & _ & _ & Hs & Hl).
        rewrite capture_loop_diverges; [reflexivity| |exact Hl].
        rewrite Hk, Hflag, Hs. discriminate.
    + split; [discriminate|]. intros (res' & _ & H & _). discriminate.
  - split; [discriminate|]. intros (res' & H & _). discriminate.
Qed.

(** X9: [main] never returns exactly when the command line is accepted,
    set-up succeeds, and either the open of the FIFO never returns (no
    reader ever attaches) or no SIGINT or SIGTERM arrives, neither before
    the run flag is first read nor during the capture loop.  A stop signal
    alone does not end a run that waits in [open]. *)
Theorem runs_forever_iff env open_returns opts :
  main_blocking env open_returns opts = None <->
  exists res,
    parse_options opts 0 = inl res /\
    setup_ok env = true /\
    (open_returns = false \/
     existsb stop_signal (setup_signals env) = false /\
     existsb stop_signal (List.concat (sig_loop env)) = false).
Proof.
  pose proof (main_never_returns env opts) as Hmain.
  unfold main_blocking. unfold main in Hmain.
  rewrite acquire_closed. cbn [fst].
  destruct (parse_options opts 0) as [res|line] eqn:Hparse.
  - destruct (setup_ok env) eqn:Hok; cbn [andb].
    + destruct open_returns; cbn [negb].
      * rewrite Hmain. split.
        -- intros (r & Hr & Hs & H1 & H2). exists res. auto.
        -- intros (r & Hr & Hs & [H|[H1 H2]]); [discriminate|].
           exists res. auto.
      * split; [|reflexivity]. intros _. exists res. auto.
    + rewrite Hmain. split.
      * intros (r & _ & H & _). discriminate.
      * intros (r & _ & H & _). discriminate.
  - split; [discriminate|]. intros (r & H & _). discriminate.
Qed.

(** ** Transfers come after configuration *)

Lemma capture_loop_extends sched g g' :
  capture_loop sched g = Some g' -> exists t, trace g' = trace g ++ t.
Proof.
  revert g. induction sched as [|w sched IH]; cbn; intros g H.
  - destruct (is_running g =? 0); [|discriminate]. injection H as <-.
    exists []. rewrite app_nil_r. reflexivity.
  - rewrite exec_deliver in H.
    destruct (is_running (delivered w g) =? 0).
    + injection H as <-. eexists. reflexivity.
    + apply IH in H. destruct H as [t Ht]. rewrite Ht.
      unfold exec, receive_data, call, act, emit, delivered. cbn [snd trace].
      rewrite <- !app_assoc. eexists. reflexivity.
Qed.

Lemma prefix_before_first {A} (l1 r t1 t2 : list A) (e : A) :
  l1 ++ r = t1 ++ e :: t2 -> ~ In e l1 -> exists m, t1 = l1 ++ m.
Proof.
  revert t1. induction l1 as [|a l1 IH]; intros t1 H Hnot.
  - exists t1. reflexivity.
  - destruct t1 as [|b t1].
    + cbn in H. injection H as -> _. exfalso. apply Hnot. left. reflexivity.
    + cbn in H. injection H as <- H.
      destruct (IH t1 H) as [m ->].
      * intros Hin. apply Hnot. right. exact Hin.
      * exists m. reflexivity.
Qed.

Lemma count_pos_In p t e : In e t -> p e = true -> count p t <> 0%nat.
Proof.
  intros Hin Hp Hzero. exact (count_zero_not_In p t e Hzero Hp Hin).
Qed.

Lemma clean_up_events_receive g : count is_receive (clean_up_events g) = 0%nat.
Proof.
  unfold clean_up_events.
  destruct (is_null (devh g)); destruct (init_has_been_run g =? 0);
    destruct (libusb_ret g =? 0); reflexivity.
Qed.

Lemma configure_stage_stopped env res g :
  is_running g = 0 -> exec (configure_stage env res) g = g.
Proof.
  intros H. unfold exec, configure_stage, bind, read. rewrite H. reflexivity.
Qed.

Lemma configure_stage_running env res s g :
  configure_switch env res = configure_dev env s ->
  is_running g <> 0 ->
  trace (exec (configure_stage env res) g) =
  trace g ++ [EMsg "Running. Initializing device."; EConfigure s;
              EMsg "Streaming data from device now."].
Proof.
  intros Hs Hrun. apply Z.eqb_neq in Hrun.
  unfold exec, configure_stage, bind, read. rewrite Hrun, Hs.
  unfold configure_dev, fprintf, call, bind, act, ret.
  destruct (configure_succeeds env s); cbn; rewrite <- !app_assoc; reflexivity.
Qed.

(** The trace of an ending run past what [acquire] left: it has no
    transfer unless the configuration block was entered, and then it
    starts with the lines and the call of that block. *)
Lemma lifecycle_trace env res rc g :
  0 <= res <= 6 ->
  lifecycle env res = Some (rc, g) ->
  exists t,
    trace g = acquire_events env ++ t /\
    (count is_receive t = 0%nat \/
     exists s t', t = [EMsg "Running. Initializing device."; EConfigure s;
                       EMsg "Streaming data from device now."] ++ t').
Proof.
  intros Hres. destruct (configure_switch_in_range env res Hres) as [s Hs].
  unfold lifecycle. rewrite setup_closed.
  assert (Hend : forall g2, exec clean_up g2 = cleaned_up g2)
    by (intros g2; unfold exec; rewrite clean_up_spec; reflexivity).
  destruct (setup_ok env).
  - destruct (Z.eq_dec (is_running (acquired env)) 0) as [Hstop|Hrun].
    + rewrite (configure_stage_stopped env res _ Hstop).
      rewrite (capture_loop_stopped _ _ Hstop).
      intros H. injection H as _ <-. rewrite Hend.
      destruct (sig_loop env) as [|w rest]; unfold cleaned_up, delivered;
        cbn [trace acquired].
      * eexists. split; [reflexivity|]. left. apply clean_up_events_receive.
      * rewrite <- app_assoc. eexists. split; [reflexivity|]. left.
        rewrite count_app, count_map_const by reflexivity.
        apply clean_up_events_receive.
    + pose proof (configure_stage_running env res s _ Hs Hrun) as Htr.
      destruct (capture_loop (sig_loop env) _) as [g2|] eqn:Hloop; [|discriminate].
      intros H. injection H as _ <-. rewrite Hend.
      destruct (capture_loop_extends _ _ _ Hloop) as [t Ht].
      unfold cleaned_up. cbn [trace]. rewrite Ht, Htr. cbn [trace acquired].
      rewrite <- !app_assoc. eexists. split; [reflexivity|]. right.
      eexists. eexists. reflexivity.
  - intros H. injection H as _ <-. rewrite Hend.
    unfold cleaned_up. cbn [trace acquired].
    eexists. split; [reflexivity|]. left. apply clean_up_events_receive.
Qed.

(** X10: in every run of [main] that ends, each call of [receive_data]
    comes after the call of an initialisation script: the driver never
    reads payload from a device it has not configured. *)
Theorem receive_after_configure env opts res rc g t1 t2 :
  parse_options opts 0 = inl res ->
  main env opts = Some (rc, g) ->
  trace g = t1 ++ EReceiveData :: t2 ->
  exists s, In (EConfigure s) t1.
Proof.
  intros Hparse Hmain Hsplit. unfold main in Hmain. rewrite Hparse in Hmain.
  assert (Hres : 0 <= res <= 6)
    by (eapply parse_options_range; [exact Hparse | lia]).
  destruct (lifecycle_trace env res rc g Hres Hmain) as (t & Ht & Hcase).
  assert (Hno : ~ In EReceiveData (acquire_events env)).
  { apply (count_zero_not_In is_receive); [|reflexivity].
    pose proof (acquire_receive env initial) as H. unfold keeps in H.
    rewrite acquire_closed in H. exact H. }
  rewrite Ht in Hsplit.
  destruct (prefix_before_first _ _ _ _ _ Hsplit Hno) as [m ->].
  rewrite <- app_assoc in Hsplit. apply app_inv_head in Hsplit.
  destruct Hcase as [Hzero | (s & t' & ->)].
  - exfalso. apply (count_zero_not_In is_receive t EReceiveData Hzero eq_refl).
    rewrite Hsplit. apply in_or_app. right. left. reflexivity.
  - exists s.
    assert (Hno' : ~ In EReceiveData
                     [EMsg "Running. Initializing device."; EConfigure s;
                      EMsg "Streaming data from device now."]).
    { cbn. intros [H|[H|[H|[]]]]; discriminate. }
    destruct (prefix_before_first _ _ _ _ _ Hsplit Hno') as [m' ->].
    rewrite !in_app_iff. cbn. tauto.
Qed.

Lemma receive_after_configure_witness :
  exists s,
    In (EConfigure s)
       [EAccess FW_MB86H57_H58_IDLE; EAccess FW_MB86H57_H58_ENC; ELibusbInit;
        EOpenDevice ELGATO_VENDOR GAME_CAPTURE_HD_PID_0;
        EOpenDevice ELGATO_VENDOR GAME_CAPTURE_HD_PID_1;
        EKernelDriverActive INTERFACE_NUM; EDetachKernelDriver INTERFACE_NUM;
        ESetConfiguration CONFIGURATION; EClaimInterface INTERFACE_NUM;
        EMkfifo fifo_path;
        EMsg "/tmp/elgato_gchd.ts has been created. Waiting for user to open it.";
        EOpenFifo fifo_path; EMsg "Running. Initializing device.";
        EConfigure configure_dev_720p; EMsg "Streaming data from device now."].
Proof.
  eapply (receive_after_configure env_ok [] 0 0).
  - reflexivity.
  - vm_compute. reflexivity.
  - vm_compute. reflexivity.
Defined.

(** ** Repeated options, repeated clean-up *)

Lemma parse_options_app a b r :
  parse_options (a ++ b) r =
  match parse_options a r with
  | inl r' => parse_options b r'
  | inr line => inr line
  end.
Proof.
  revert r. induction a as [|[opt optarg] a IH]; intros r; [reflexivity|].
  cbn [app parse_options].
  destruct (opt =? chr "r").
  - repeat match goal with
           | |- (if ?c then _ else _) = _ => destruct c; [apply IH|]
           end.
    reflexivity.
  - destruct (opt =? chr ":"); [reflexivity|].
    destruct (opt =? chr "?"); reflexivity.
Qed.

(** X11: options are handled from left to right: the first rejected one
    decides the diagnostic and nothing after it is looked at, and among
    accepted ones the last resolution given wins, whatever was selected
    before. *)
Theorem parse_options_order :
  (forall a b r,
      parse_options (a ++ b) r =
      match parse_options a r with
      | inl r' => parse_options b r'
      | inr line => inr line
      end) /\
  (forall a b r line, parse_options a r = inr line ->
                      parse_options (a ++ b) r = inr line) /\
  (forall a tok res r,
      forallb accepted a = true ->
      In (tok, res) resolution_tokens ->
      parse_options (a ++ [(chr "r", tok)]) r = inl res).
Proof.
  split; [exact parse_options_app|]. split.
  - intros a b r line H. rewrite parse_options_app, H. reflexivity.
  - intros a tok res r Ha Hin. rewrite parse_options_app.
    destruct (parse_accepted a r Ha) as [r' ->].
    rewrite (parse_token _ _ _ _ Hin). reflexivity.
Qed.

(** X12: [clean_up] changes none of the globals it tests, so it is not
    idempotent: a second call repeats every call of the first; with a
    device handle open it releases the interface and closes the handle a
    second time. *)
Theorem clean_up_repeats g :
  let g1 := exec clean_up g in
  let g2 := exec clean_up g1 in
  devh g1 = devh g /\ libusb_ret g1 = libusb_ret g /\
  fd_fifo g1 = fd_fifo g /\ init_has_been_run g1 = init_has_been_run g /\
  trace g2 = trace g ++ clean_up_events g ++ clean_up_events g /\
  clean_up_calls g2 = S (S (clean_up_calls g)) /\
  (devh g <> None ->
   count is_libusb_close (trace g2) = S (S (count is_libusb_close (trace g))) /\
   count is_release (trace g2) = S (S (count is_release (trace g)))).
Proof.
  cbv zeta. unfold exec. rewrite !clean_up_spec. cbn [snd].
  repeat (split; [reflexivity|]).
  split.
  { unfold cleaned_up. cbn [trace devh libusb_ret fd_fifo init_has_been_run].
    unfold clean_up_events at 3.
    cbn [trace devh libusb_ret fd_fifo init_has_been_run].
    fold (clean_up_events g). rewrite <- app_assoc. reflexivity. }
  split.
  { assert (Hc : forall x, clean_up_calls (cleaned_up x) = S (clean_up_calls x)).
    { intros x. rewrite <- clean_up_clean_up_calls. unfold exec.
      rewrite clean_up_spec. reflexivity. }
    rewrite !Hc. reflexivity. }
  intros Hdevh.
  unfold cleaned_up, clean_up_events.
  cbn [trace devh libusb_ret fd_fifo init_has_been_run].
  destruct (devh g) as [h|]; [|contradiction]. cbn [is_null].
  destruct (init_has_been_run g =? 0); destruct (libusb_ret g =? 0);
    rewrite !count_app; cbn; lia.
Qed.

(** ** A whole streaming run, and signals during set-up *)

(** X13: when set-up succeeds with the run flag still set and the first
    stop signal arrives in the window after [pre] of the capture loop,
    [main] returns 0 after exactly one initialisation script and exactly
    [length pre] transfers. *)
Theorem streaming_run env opts res pre sigs rest :
  parse_options opts 0 = inl res ->
  setup_ok env = true ->
  existsb stop_signal (setup_signals env) = false ->
  sig_loop env = pre ++ sigs :: rest ->
  existsb stop_signal (List.concat pre) = false ->
  existsb stop_signal sigs = true ->
  exists g,
    main env opts = Some (0, g) /\
    count is_configure (trace g) = 1%nat /\
    count is_receive (trace g) = List.length pre.
Proof.
  intros Hparse Hok Hsetup Hloop Hpre Hsigs.
  assert (Hres : 0 <= res <= 6)
    by (eapply parse_options_range; [exact Hparse | lia]).
  destruct (configure_switch_in_range env res Hres) as [s Hs].
  assert (Hrun : is_running (acquired env) <> 0).
  { unfold acquired. cbn [is_running].
    rewrite (acquire_signals_ok env Hok), Hsetup. discriminate. }
  pose proof (configure_stage_running env res s _ Hs Hrun) as Htr.
  pose proof (configure_stage_keeps_running env res (acquired env)) as Hk.
  unfold keeps in Hk.
  fold (exec (configure_stage env res) (acquired env)) in Hk.
  set (g1 := exec (configure_stage env res) (acquired env)) in *.
  assert (Hrun1 : is_running g1 <> 0) by (rewrite Hk; exact Hrun).
  destruct (capture_loop_until_stop pre sigs rest g1 Hrun1 Hpre Hsigs)
    as (g2 & Hcl & _ & Hrecv & _).
  assert (Hconf2 : occurrences is_configure g2 = occurrences is_configure g1)
    by (apply (capture_loop_occurrences _ _ _ _ eq_refl eq_refl Hcl)).
  pose proof (acquire_configure env initial) as Hc0.
  pose proof (acquire_receive env initial) as Hr0.
  unfold keeps in Hc0, Hr0. rewrite acquire_closed in Hc0, Hr0.
  cbn [snd] in Hc0, Hr0.
  unfold main, lifecycle. rewrite Hparse, setup_closed, Hok, Hloop.
  fold g1. rewrite Hcl. eexists. split; [reflexivity|].
  assert (Hcc : count is_configure (trace (exec clean_up g2)) =
                occurrences is_configure g2) by exact (clean_up_configure g2).
  assert (Hcr : count is_receive (trace (exec clean_up g2)) =
                occurrences is_receive g2) by exact (clean_up_receive g2).
  rewrite Hcc, Hcr, Hconf2, Hrecv.
  unfold occurrences in *. rewrite Htr, !count_app, Hc0, Hr0.
  split; reflexivity.
Qed.

Lemma streaming_run_witness :
  exists g,
    main env_ok [(chr "r", "1080p")] = Some (0, g) /\
    count is_configure (trace g) = 1%nat /\
    count is_receive (trace g) = List.length [[]; []; [] : list Z].
Proof.
  apply (streaming_run env_ok [(chr "r", "1080p")] v1080p
           [[]; []; []] [SIGINT] []); reflexivity.
Defined.

Lemma filter_notices p sigs :
  p (EMsg stop_notice) = false -> filter p (notices sigs) = [].
Proof.
  intros H. unfold notices.
  induction (filter stop_signal sigs) as [|a l IH]; [reflexivity|].
  cbn. rewrite H. exact IH.
Qed.

Lemma filter_cons_app {A} (p : A -> bool) e t :
  filter p (e :: t) = (if p e then [e] else []) ++ filter p t.
Proof. cbn. destruct (p e); reflexivity. Qed.

(** X14: signals that arrive during set-up do not change it: whether
    [acquire] lets [main] continue, every call it makes and every line it
    prints other than the handler's notice stay the same; such a signal
    only takes effect at the test of the run flag that follows. *)
Theorem setup_ignores_signals env sigs :
  fst (acquire (with_signals sigs env) initial) = fst (acquire env initial) /\
  filter (fun e => negb (is_notice e))
         (trace (snd (acquire (with_signals sigs env) initial))) =
  filter (fun e => negb (is_notice e)) (trace (snd (acquire env initial))).
Proof.
  rewrite !acquire_closed. cbn [fst snd]. split; [reflexivity|].
  unfold acquired. cbn [trace]. unfold acquire_events.
  change (firmware_ok (with_signals sigs env)) with (firmware_ok env).
  change (located (with_signals sigs env)) with (located env).
  change (claimed (with_signals sigs env)) with (claimed env).
  change (init_dev_handler_events (with_signals sigs env))
    with (init_dev_handler_events env).
  change (get_interface_events (with_signals sigs env))
    with (get_interface_events env).
  cbn [fw_present with_signals sig_at].
  destruct (fw_present env FW_MB86H57_H58_IDLE); destruct (firmware_ok env);
    destruct (located env); destruct (claimed env);
    repeat first [ rewrite filter_app
                 | rewrite filter_notices by reflexivity
                 | rewrite filter_cons_app ];
    reflexivity.
Qed.

(** ** Long options and the end of [longOptions] *)

Lemma exact_match_longOptions nm :
  nm <> "resolution" -> exact_match longOptions nm = PastEnd.
Proof.
  intros H. unfold longOptions. cbn [exact_match name].
  destruct (String.eqb_spec "resolution" nm) as [E|_]; [|reflexivity].
  exfalso. apply H. symmetry. exact E.
Qed.

(** C6: an option that [main] does not recognise should be a usage error,
    and with the array of long options ended by an element of zeros it is.
    The array of [main] has no such element: for [--foo], for an
    abbreviation such as [--res 720p], and for every long option whose name
    is not exactly [resolution], [getopt_long] scans beyond the one element
    of the array, and the behaviour of the process is undefined instead of
    a usage error.  Exactly [--resolution], and the short options, do not
    reach the end of the array and behave as the switch says. *)
Theorem long_option_reads_past_table :
  (forall env, main_argv env ["elgato-gchd"; "--foo"] = Undefined) /\
  (forall env, main_argv env ["elgato-gchd"; "--res"; "720p"] = Undefined) /\
  (forall env c body rest,
      fst (split_at_equals (String c body)) <> "resolution" ->
      main_argv env ("elgato-gchd" :: String "-" (String "-" (String c body)) :: rest)
      = Undefined) /\
  parse_argv (longOptions ++ [terminator]) ["--foo"] false 0
    = Usage "Unrecognized option." /\
  parse_argv (longOptions ++ [terminator]) ["--res"; "720p"] false 0
    = Selected v720p /\
  (forall env tok,
      main_argv env ["elgato-gchd"; "--resolution"; tok]
      = Behaves (main env [(chr "r", tok)])) /\
  (forall env tok,
      main_argv env ["elgato-gchd"; "-r"; tok]
      = Behaves (main env [(chr "r", tok)])) /\
  (forall env,
      main_argv env ["elgato-gchd"; "-x"]
      = Behaves (Some (EXIT_FAILURE, exec (fprintf "Unrecognized option.") initial))).
Proof.
  split; [reflexivity|]. split; [reflexivity|].
  split.
  { intros env c body rest Hname.
    unfold main_argv. cbn [tl parse_argv]. unfold getopt_long_option.
    destruct (split_at_equals (String c body)) as [nm arg]. cbn [fst] in Hname.
    unfold lookup_long. rewrite (exact_match_longOptions nm Hname).
    reflexivity. }
  split; [reflexivity|]. split; [reflexivity|].
  assert (Hmain : forall env tok p,
             p = match parse_options [(chr "r", tok)] 0 with
                 | inl r => Selected r
                 | inr line => Usage line
                 end ->
             match p with
             | UndefinedBehaviour => Undefined
             | Usage line =>
                 Behaves (Some (EXIT_FAILURE, exec (fprintf line) initial))
             | Selected r => Behaves (lifecycle env r)
             end = Behaves (main env [(chr "r", tok)])).
  { intros env tok p ->. unfold main.
    destruct (parse_options [(chr "r", tok)] 0); reflexivity. }
  split.
  { intros env tok. apply Hmain. cbn [tl]. reflexivity. }
  split.
  { intros env tok. apply Hmain. cbn [tl]. reflexivity. }
  reflexivity.
Qed.
